(** * lit-ssr: the streaming server-side renderer of lit-html templates

    A shallow embedding of [render-lit-html] (the second module of
    [src/lib/util/iterator-readable.ts]): the template cache and part
    extractor [getTemplate], the value renderer [renderValue] and the
    template renderer [renderTemplateResult] with its closures [flushTo],
    [skipTo], [handleNode] and the helper [getAttrValue].

    Generators are modelled by what a consumer that drains them observes:
    the chunks yielded so far, the mutated shared state, and how the run
    ended (normally, or with an exception thrown at that point).  Strings are
    byte strings; offsets of the HTML parser are indices into them. *)

From stdpp Require Import base list strings gmap pretty.
From Stdlib Require Import ZArith Ascii.

Local Open Scope string_scope.
Local Open Scope list_scope.
Set Warnings "-register-all".

(** ** JavaScript string primitives used by the renderer *)

Module JS.

(** [s.substring(start, stop)]: both ends are clamped to the length, an
    [undefined] start counts as 0 and an [undefined] stop as the length, and
    the two ends are swapped when start is the larger one. *)
Definition substring (s : string) (start stop : option nat) : string :=
  let len := String.length s in
  let a := Nat.min (default 0 start) len in
  let b := Nat.min (default len stop) len in
  String.substring (Nat.min a b) (Nat.max a b - Nat.min a b) s.

(** [s.startsWith(p)] *)
Definition startsWith (s p : string) : bool := String.prefix p s.

(** [s.endsWith(p)] *)
Definition endsWith (s p : string) : bool :=
  let n := String.length s in
  let m := String.length p in
  (m <=? n)%nat && bool_decide (String.substring (n - m) m s = p).

(** [s.indexOf(c) !== -1] for a one-character needle. *)
Fixpoint includesChar (c : ascii) (s : string) : bool :=
  match s with
  | EmptyString => false
  | String d s' => bool_decide (c = d) || includesChar c s'
  end.

(** The text left of a suffix of [m] characters:
    [s.substring(0, s.length - m)]. *)
Definition dropSuffix (s : string) (m : nat) : string :=
  substring s (Some 0) (Some (String.length s - m)).

(** [s.substring(1)] *)
Definition tail (s : string) : string := substring s (Some 1) None.

End JS.

(** ** The marker conventions of lit-html

    [marker] is [`{{lit-${String(Math.random()).slice(2)}}}`]: the digits are
    drawn once per process, so they are a parameter here. *)

Definition boundAttributeSuffix : string := "$lit$".

Section Marker.

Variable rnd : string.

Definition marker : string := "{{lit-" +:+ rnd +:+ "}}".
Definition nodeMarker : string := "<!--" +:+ marker +:+ "-->".

(** [markerRegex] is [marker|nodeMarker]. [markerAt s] tells whether it
    matches at the start of [s] and, if so, how many characters of the match
    follow its first one. *)
Definition markerAt (s : string) : option nat :=
  if String.prefix marker s then Some (String.length marker - 1)
  else if String.prefix nodeMarker s then Some (String.length nodeMarker - 1)
  else None.

(** [s.split(markerRegex)]: [skip] characters of a match are still to be
    passed over and [cur] is the fragment read since the last match. *)
Fixpoint splitFrom (skip : nat) (cur : string) (s : string) : list string :=
  match s with
  | EmptyString => [cur]
  | String c s' =>
      match skip with
      | S k => splitFrom k cur s'
      | O =>
          match markerAt s with
          | Some k => cur :: splitFrom k "" s'
          | None => splitFrom 0 (cur +:+ String c "") s'
          end
      end
  end.

Definition split (s : string) : list string := splitFrom 0 "" s.

End Marker.

(** ** The parsed tree (parse5, with source locations)

    The location of an attribute is kept with the attribute: parse5 records it
    under the attribute's name, and names are unique within a start tag. *)

Record Attribute := {
  attr_name : string;
  attr_value : string;
  attr_startOffset : nat;
  attr_endOffset : nat
}.

Inductive Node :=
| DocumentFragment (childNodes : option (list Node))
| Element (tagName : string) (attrs : list Attribute)
          (startTagEndOffset : nat) (childNodes : list Node)
| CommentNode (data : string) (startOffset endOffset : nat)
| TextNode (text : string).

Definition isElement (node : Node) : bool :=
  match node with Element _ _ _ _ => true | _ => false end.

Definition isCommentNode (node : Node) : bool :=
  match node with CommentNode _ _ _ => true | _ => false end.

(** [node.childNodes], which is [undefined] on leaves. *)
Definition getChildNodes (node : Node) : option (list Node) :=
  match node with
  | DocumentFragment cs => cs
  | Element _ _ _ cs => Some cs
  | _ => None
  end.

(** Modelled from the spec: [depthFirst] of [util/parse5-utils.js], which is
    not among the sources.  The traversal is depth-first and pre-order and
    starts with the node it is given, so that with the index starting at -1
    the first child of the root gets index 0. *)
Fixpoint depthFirst (node : Node) : list Node :=
  let each := fix each (cs : list Node) : list Node :=
    match cs with
    | [] => []
    | c :: cs' => depthFirst c ++ each cs'
    end in
  node :: match node with
          | DocumentFragment (Some cs) => each cs
          | Element _ _ _ cs => each cs
          | _ => []
          end.

(** ** Values, template results and directives *)

(** A frame of [RenderInfo.instances]; the instance is a reference to a
    live element object, so it is an address into the heap of the run. *)
Record Frame := { frame_tagName : string; frame_instance : option nat }.

(** What a run can throw. *)
Inductive Exn :=
| LastOffsetUndefined                       (* 'lastOffset is undefined' *)
| BackwardsSkip (offset lastOffset : nat)   (* 'offset must be greater than lastOffset...' *)
| BooleanAttributeError                     (* 'Boolean attributes can only contain a single expression' *)
| FinalPartIndex (partIndex len : nat)      (* 'unexpected final partIndex: ... !== ...' *)
| TypeError (what : string)                 (* a property read or written on undefined or null *)
| Thrown (e : string).                      (* an exception of collaborator code *)

Record TemplateStringsArray := { ident : nat; raw : list string }.

(** The values a binding can hold.  Numbers are the integral ones.  A
    directive is known by its capability tag; the repeat directive carries its
    producer, which receives the frame stack and yields chunks until it ends
    or throws. *)
Inductive value :=
| VUndefined
| VNull
| VBool (b : bool)
| VNum (n : Z)
| VStr (s : string)
| VNothing
| VNoChange
| VArray (items : list value)
| VTemplateResult (r : TemplateResult)
| VRepeat (producer : list Frame -> list string * option Exn)
| VRenderLight
| VClassMap (classes : string)
with TemplateResult :=
| mkTemplateResult (strings : TemplateStringsArray) (values : list value)
                   (digest : string) (getHTML : string).

Definition strings (r : TemplateResult) : TemplateStringsArray :=
  match r with mkTemplateResult s _ _ _ => s end.
Definition values (r : TemplateResult) : list value :=
  match r with mkTemplateResult _ v _ _ => v end.
Definition digest (r : TemplateResult) : string :=
  match r with mkTemplateResult _ _ d _ => d end.
Definition getHTML (r : TemplateResult) : string :=
  match r with mkTemplateResult _ _ _ h => h end.

(** [if (value)] *)
Definition truthy (v : value) : bool :=
  match v with
  | VUndefined | VNull => false
  | VBool b => b
  | VNum n => negb (n =? 0)%Z
  | VStr s => negb (bool_decide (s = ""))
  | _ => true
  end.

Inductive TemplatePart :=
| NodePart (index : Z)
| AttributePart (index : Z) (name : string) (strings : list string).

Definition part_index (p : TemplatePart) : Z :=
  match p with NodePart i => i | AttributePart i _ _ => i end.

Record ParsedTemplate := {
  html : string;
  ast : Node;
  parts : list TemplatePart
}.

(** ** Custom elements *)

(** A registered element class: whether [new ctor()] throws, and what the
    [render] and [renderLight] methods of an instance return, given the
    properties assigned to it so far. *)
Record ElementClass := {
  ctorThrows : option string;
  elementRender : gmap string value -> value;
  elementRenderLight : gmap string value -> value
}.

Record LitElement := { classOf : ElementClass; props : gmap string value }.

(** The collaborators the renderer is linked against. *)
Record Externals := {
  rnd : string;                                  (* the digits of [marker] *)
  parseFragment : string -> Node;                (* parse5, location info on *)
  customElements : string -> option ElementClass;       (* customElements.get *)
  reflectedAttributeName : string -> string -> option string;
  lastAttributeName : string -> option string;   (* lastAttributeNameRegex.exec(s), group 2 *)
  functionSource : string                        (* String(f) of a directive function *)
}.

(** ** The state a render runs in, and the runs of a generator *)

(** [console.error('Exception in custom element constructor', e)] *)
Inductive LogEntry := CtorException (e : Exn).

(** [templateCache] is the module-level map, keyed by the identity of
    [result.strings]; [instances] is the array of the one [RenderInfo] object
    that [render] creates and every nested call receives, its last element
    being the top of the stack; [heap] holds the element objects created so
    far, addressed by position. *)
Record World := {
  templateCache : gmap nat ParsedTemplate;
  instances : list Frame;
  heap : list LitElement;
  console : list LogEntry
}.

Definition setCache (c : gmap nat ParsedTemplate) (w : World) : World :=
  {| templateCache := c; instances := instances w; heap := heap w; console := console w |}.
Definition setInstances (fs : list Frame) (w : World) : World :=
  {| templateCache := templateCache w; instances := fs; heap := heap w; console := console w |}.
Definition setHeap (h : list LitElement) (w : World) : World :=
  {| templateCache := templateCache w; instances := instances w; heap := h; console := console w |}.
Definition setConsole (l : list LogEntry) (w : World) : World :=
  {| templateCache := templateCache w; instances := instances w; heap := heap w; console := l |}.

(** How a drained generator ended.  [Exhausted] is not an outcome of the
    program: it marks a run cut short by the recursion budget of this model. *)
Inductive Completion (A : Type) :=
| Done (a : A)
| Throw (e : Exn)
| Exhausted.
Arguments Done {A} a.
Arguments Throw {A} e.
Arguments Exhausted {A}.

Record Run (A : Type) := mkRun {
  chunks : list string;
  world : World;
  completion : Completion A
}.
Arguments mkRun {A} _ _ _.
Arguments chunks {A} _.
Arguments world {A} _.
Arguments completion {A} _.

Definition Gen (A : Type) : Type := World -> Run A.

Definition ret {A} (a : A) : Gen A := fun w => mkRun [] w (Done a).
Definition throw {A} (e : Exn) : Gen A := fun w => mkRun [] w (Throw e).
Definition exhausted {A} : Gen A := fun w => mkRun [] w Exhausted.
Definition yield (s : string) : Gen unit := fun w => mkRun [s] w (Done tt).
Definition yieldAll (l : list string) : Gen unit := fun w => mkRun l w (Done tt).
Definition getWorld : Gen World := fun w => mkRun [] w (Done w).
Definition modify (f : World -> World) : Gen unit := fun w => mkRun [] (f w) (Done tt).

Definition bind {A B} (m : Gen A) (k : A -> Gen B) : Gen B := fun w =>
  let r := m w in
  match completion r with
  | Done a =>
      let r' := k a (world r) in
      mkRun (chunks r ++ chunks r') (world r') (completion r')
  | Throw e => mkRun (chunks r) (world r) (Throw e)
  | Exhausted => mkRun (chunks r) (world r) Exhausted
  end.

Declare Scope gen_scope.
Delimit Scope gen_scope with gen.
Notation "'let*' x ':=' m 'in' k" := (bind m (fun x => k))
  (at level 10, x pattern, m at level 100, k at level 200) : gen_scope.
Notation "m ';;' k" := (bind m (fun _ => k))
  (at level 100, k at level 200, right associativity) : gen_scope.
Local Open Scope gen_scope.

(** A result of a closure that can throw but neither yields nor touches the
    shared state. *)
Definition lift {A} (r : Exn + A) : Gen A :=
  match r with inl e => throw e | inr a => ret a end.

(** [for (const x of l) { s = yield* f(s, x) }] *)
Fixpoint foldGen {S A} (f : S -> A -> Gen S) (l : list A) (s : S) : Gen S :=
  match l with
  | [] => ret s
  | x :: l' => let* s' := f s x in foldGen f l' s'
  end.

(** [for (const x of l) { yield* f(x) }] *)
Fixpoint forEach {A} (f : A -> Gen unit) (l : list A) : Gen unit :=
  match l with
  | [] => ret tt
  | x :: l' => f x ;; forEach f l'
  end.

(** ** The template cache and the part extractor *)

Section Renderer.

Variable ext : Externals.

(** The loop of [getTemplate] over [depthFirst(ast)], one node at a time:
    the running [nodeIndex] and the parts pushed so far. *)
Definition attributeParts (nodeIndex : Z) (attrs : list Attribute) : list TemplatePart :=
  flat_map (fun attr =>
    if JS.endsWith (attr_name attr) boundAttributeSuffix then
      let name := JS.dropSuffix (attr_name attr) (String.length boundAttributeSuffix) in
      let strings := split (rnd ext) (attr_value attr) in
      [AttributePart nodeIndex name strings]
    else []) attrs.

Definition extractStep (acc : Z * list TemplatePart) (node : Node) : Z * list TemplatePart :=
  let '(nodeIndex, parts) := acc in
  match node with
  | CommentNode data _ _ =>
      let parts :=
        if bool_decide (data = marker (rnd ext)) then parts ++ [NodePart nodeIndex] else parts in
      let nodeIndex := (nodeIndex + 1)%Z in
      ((nodeIndex + 1)%Z, parts)
  | Element _ attrs _ _ =>
      if (0 <? length attrs)%nat
      then ((nodeIndex + 1)%Z, parts ++ attributeParts nodeIndex attrs)
      else ((nodeIndex + 1)%Z, parts)
  | _ => ((nodeIndex + 1)%Z, parts)
  end.

Definition extractParts (ast : Node) : Z * list TemplatePart :=
  fold_left extractStep (depthFirst ast) ((-1)%Z, []).

Definition parseTemplate (result : TemplateResult) : ParsedTemplate :=
  let html := getHTML result in
  let ast := parseFragment ext html in
  {| html := html; ast := ast; parts := snd (extractParts ast) |}.

Definition getTemplate (result : TemplateResult) : Gen ParsedTemplate := fun w =>
  match templateCache w !! ident (strings result) with
  | Some template => mkRun [] w (Done template)
  | None =>
      let t := parseTemplate result in
      mkRun [] (setCache (<[ident (strings result) := t]> (templateCache w)) w) (Done t)
  end.

(** ** Conversions of values to text *)

Definition dquote : string := String "034"%char EmptyString.

(** [String(value)], also the conversion inside a template literal.  An array
    joins its elements with commas, [null] and [undefined] elements
    contributing nothing; [nothing], [noChange] and template results are
    plain objects; a directive is a function. *)
Fixpoint String_ (v : value) : string :=
  let element := fun (x : value) =>
    match x with
    | VUndefined | VNull => ""
    | _ => String_ x
    end in
  let join := fix join (vs : list value) : string :=
    match vs with
    | [] => ""
    | [x] => element x
    | x :: rest => element x +:+ "," +:+ join rest
    end in
  match v with
  | VUndefined => "undefined"
  | VNull => "null"
  | VBool true => "true"
  | VBool false => "false"
  | VNum n => pretty n
  | VStr s => s
  | VNothing | VNoChange | VTemplateResult _ => "[object Object]"
  | VArray items => join items
  | VRepeat _ | VRenderLight | VClassMap _ => functionSource ext
  end.

(** The callback of [getAttrValue] on [result.values[startIndex]]. *)
Definition resolveAttrValue (v : option value) : string :=
  match v with
  | Some (VClassMap classes) => classes
  | Some v => String_ v
  | None => String_ VUndefined
  end.

(** [s.replace(globalMarkerRegex, callback)], the callback consuming the
    values from [startIndex] on. *)
Fixpoint replaceFrom (skip : nat) (vals : list value) (startIndex : nat) (s : string) : string :=
  match s with
  | EmptyString => ""
  | String c s' =>
      match skip with
      | S k => replaceFrom k vals startIndex s'
      | O =>
          match markerAt (rnd ext) s with
          | Some k => resolveAttrValue (vals !! startIndex) +:+ replaceFrom k vals (S startIndex) s'
          | None => String c (replaceFrom 0 vals startIndex s')
          end
      end
  end.

Definition getAttrValue (attr : Attribute) (result : TemplateResult) (startIndex : nat) : string :=
  replaceFrom 0 (values result) startIndex (attr_value attr).

(** ** The cursors of one [renderTemplateResult] call and its offset primitives *)

Record Cursor := {
  partIndex : nat;
  templatePartIndex : Z;
  lastOffset : option nat
}.

Definition setLastOffset (o : option nat) (cur : Cursor) : Cursor :=
  {| partIndex := partIndex cur; templatePartIndex := templatePartIndex cur; lastOffset := o |}.
Definition setPartIndex (n : nat) (cur : Cursor) : Cursor :=
  {| partIndex := n; templatePartIndex := templatePartIndex cur; lastOffset := lastOffset cur |}.
Definition nextTemplatePart (cur : Cursor) : Cursor :=
  {| partIndex := partIndex cur; templatePartIndex := (templatePartIndex cur + 1)%Z;
     lastOffset := lastOffset cur |}.

Definition flushTo (html : string) (offset : option nat) (cur : Cursor) : Exn + (string * Cursor) :=
  match lastOffset cur with
  | None => inl LastOffsetUndefined
  | Some previousLastOffset =>
      inr (JS.substring html (Some previousLastOffset) offset, setLastOffset offset cur)
  end.

Definition skipTo (offset : nat) (cur : Cursor) : Exn + Cursor :=
  match lastOffset cur with
  | None => inl LastOffsetUndefined
  | Some last =>
      if (offset <? last)%nat then inl (BackwardsSkip offset last)
      else inr (setLastOffset (Some offset) cur)
  end.

(** ** The frame stack and the element objects *)

Definition pushFrame (tagName : string) (w : World) : World :=
  setInstances (instances w ++ [{| frame_tagName := tagName; frame_instance := None |}]) w.

Definition popFrame (w : World) : World :=
  setInstances (removelast (instances w)) w.

(** [traverse] of parse5-traverse: [pre] on the node, then its children in
    order, then [post] on the node.  The callbacks of the renderer only touch
    the shared state. *)
Fixpoint traverse (pre post : Node -> World -> World) (node : Node) (w : World) : World :=
  let each := fix each (cs : list Node) (w : World) : World :=
    match cs with
    | [] => w
    | c :: cs' => each cs' (traverse pre post c w)
    end in
  let w := pre node w in
  let w := match node with
           | DocumentFragment (Some cs) => each cs w
           | Element _ _ _ cs => each cs w
           | _ => w
           end in
  post node w.

Definition pre (node : Node) (w : World) : World :=
  match node with
  | Element tagName _ _ _ => pushFrame tagName w
  | _ => w
  end.

Definition post (node : Node) (w : World) : World :=
  if isElement node then popFrame w else w.

(** [new ctor()] when the constructor returns: a fresh object. *)
Definition allocate (ctor : ElementClass) : Gen nat := fun w =>
  mkRun [] (setHeap (heap w ++ [{| classOf := ctor; props := ∅ |}]) w) (Done (length (heap w))).

(** [renderInfo.instances[renderInfo.instances.length - 1].instance = instance],
    a [TypeError] on an empty array. *)
Definition storeInstance (l : nat) (fs : list Frame) : Exn + list Frame :=
  match last fs with
  | None => inl (TypeError "instances[instances.length - 1].instance")
  | Some _ =>
      inr (alter (fun f => {| frame_tagName := frame_tagName f; frame_instance := Some l |})
                 (length fs - 1) fs)
  end.

Definition logError (e : Exn) : Gen unit :=
  modify (fun w => setConsole (console w ++ [CtorException e]) w).

(** [(instance as any)[propertyName] = value] *)
Definition setProperty (l : nat) (propertyName : string) (v : value) : Gen unit :=
  modify (fun w =>
    setHeap (alter (fun o => {| classOf := classOf o;
                                props := <[propertyName := v]> (props o) |}) l (heap w)) w).

(** The start of the element branch of [handleNode]: the instance, if one
    was constructed, and [writeTag]. *)
Definition instantiate (tagName : string) : Gen (option nat * bool) :=
  if JS.includesChar "-"%char tagName then
    match customElements ext tagName with
    | Some ctor =>
        match ctorThrows ctor with
        | Some e => logError (Thrown e) ;; ret (None, true)
        | None =>
            let* instance := allocate ctor in
            let* w := getWorld in
            match storeInstance instance (instances w) with
            | inr fs => modify (setInstances fs) ;; ret (Some instance, true)
            | inl e => logError e ;; ret (Some instance, true)
            end
        end
    | None => ret (None, false)
    end
  else ret (None, false).

(** ** The streaming renderer

    [renderValue], [renderTemplateResult] and the element renderer call each
    other; the callee [self] stands for [renderValue] in what follows, and the
    knot is tied by [renderValue] below. *)

Section Open.

Variable self : value -> Gen unit.

(** Modelled from the spec: [LitElementRenderer.renderElement] of
    [lit-element-renderer.js], which is not among the sources.  It streams the
    instance's own rendering output, by the same algorithm, into the current
    stream. *)
Definition renderElement (instance : nat) : Gen unit :=
  let* w := getWorld in
  match heap w !! instance with
  | Some e => self (elementRender (classOf e) (props e))
  | None => throw (TypeError "instance.render")
  end.

Section Template.

Variable result : TemplateResult.
Variable template : ParsedTemplate.

(** The branch of a bound attribute on the sigil of its name: the chunks it
    yields and the cursor after it.  [name] is the name as written in the
    template, [attributeName] the parsed one without the suffix. *)
Definition handleBinding (tagName : string) (instance : option nat) (attr : Attribute)
    (name attributeName : string) (statics : list string) (cur : Cursor) : Gen Cursor :=
  if JS.startsWith name "." then
    let propertyName := JS.tail name in
    let '(v, cur) :=
      if bool_decide (length statics = 2)
      then (default VUndefined (values result !! partIndex cur),
            setPartIndex (partIndex cur + 1) cur)
      else (VStr (getAttrValue attr result (partIndex cur)),
            setPartIndex (partIndex cur + (length statics - 1)) cur) in
    match instance with
    | Some l => setProperty l propertyName v
    | None => ret tt
    end ;;
    match reflectedAttributeName ext tagName propertyName with
    | Some reflectedName => yield (reflectedName +:+ "=" +:+ dquote +:+ String_ v +:+ dquote)
    | None => ret tt
    end ;;
    ret cur
  else if JS.startsWith name "@" then
    ret (setPartIndex (partIndex cur + (length statics - 1)) cur)
  else if JS.startsWith name "?" then
    let attributeName := JS.tail attributeName in
    if bool_decide (statics = [""; ""]) then
      let v := default VUndefined (values result !! partIndex cur) in
      let cur := setPartIndex (partIndex cur + 1) cur in
      (if truthy v then yield attributeName else ret tt) ;;
      ret cur
    else throw BooleanAttributeError
  else
    let attributeString :=
      attributeName +:+ "=" +:+ dquote +:+ getAttrValue attr result (partIndex cur) in
    let cur := setPartIndex (partIndex cur + (length statics - 1)) cur in
    yield (attributeString +:+ dquote) ;;
    ret cur.

(** The body of the loop over [node.attrs]; the accumulator is the cursor
    and [boundAttrsCount]. *)
Definition handleAttr (tagName : string) (instance : option nat)
    (acc : Cursor * nat) (attr : Attribute) : Gen (Cursor * nat) :=
  let '(cur, boundAttrsCount) := acc in
  if JS.endsWith (attr_name attr) "$lit$" then
    let stringForPart := default "undefined" (raw (strings result) !! partIndex cur) in
    match lastAttributeName ext stringForPart with
    | None => throw (TypeError "lastAttributeNameRegex.exec(stringForPart)[2]")
    | Some name =>
        let statics := split (rnd ext) (attr_value attr) in
        let attributeName :=
          JS.dropSuffix (attr_name attr) (String.length boundAttributeSuffix) in
        yield (JS.substring (html template) (lastOffset cur) (Some (attr_startOffset attr))) ;;
        let* cur := handleBinding tagName instance attr name attributeName statics cur in
        let* cur := lift (skipTo (attr_endOffset attr) cur) in
        ret (nextTemplatePart cur, boundAttrsCount + 1)
    end
  else ret acc.

(** [templateParts[templatePartIndex]] *)
Definition templatePartAt (i : Z) : option TemplatePart :=
  if (i <? 0)%Z then None else parts template !! Z.to_nat i.

(** The element branch of [handleNode] once [instance] and [writeTag] are
    settled: the attributes, the start tag, the bindings comment and the
    element's own output. *)
Definition elementBody (tagName : string) (attrs : list Attribute) (startTagEndOffset : nat)
    (instance : option nat) (writeTag : bool) (cur : Cursor) : Gen Cursor :=
  let* (cur, boundAttrsCount) := foldGen (handleAttr tagName instance) attrs (cur, 0) in
  let* cur :=
    if writeTag || (0 <? boundAttrsCount)%nat then
      let* (chunk, cur) := lift (flushTo (html template) (Some startTagEndOffset) cur) in
      yield chunk ;; ret cur
    else ret cur in
  (if (0 <? boundAttrsCount)%nat then
     match templatePartAt (templatePartIndex cur) with
     | Some templatePart =>
         yield ("<!--lit-bindings " +:+ pretty (part_index templatePart) +:+ "-->")
     | None => throw (TypeError "templatePart.index")
     end
   else ret tt) ;;
  match instance with
  | Some l => renderElement l
  | None => ret tt
  end ;;
  ret cur.

Definition handleNode (cur : Cursor) (node : Node) : Gen Cursor :=
  match node with
  | CommentNode data startOffset endOffset =>
      if bool_decide (data = marker (rnd ext)) then
        let* (chunk, cur) := lift (flushTo (html template) (Some startOffset) cur) in
        yield chunk ;;
        let* cur := lift (skipTo endOffset cur) in
        let v := default VUndefined (values result !! partIndex cur) in
        let cur := nextTemplatePart (setPartIndex (partIndex cur + 1) cur) in
        self v ;;
        ret cur
      else ret cur
  | Element tagName attrs startTagEndOffset _ =>
      let* (instance, writeTag) := instantiate tagName in
      elementBody tagName attrs startTagEndOffset instance writeTag cur
  | _ => ret cur
  end.

(** The body of the loop over [ast.childNodes]. *)
Definition renderTopLevelNode (cur : Cursor) (node : Node) : Gen Cursor :=
  match node with
  | Element tagName _ _ _ => modify (pushFrame tagName)
  | _ => ret tt
  end ;;
  modify (traverse pre post node) ;;
  let* cur := foldGen handleNode (depthFirst node) cur in
  (if isElement node then modify popFrame else ret tt) ;;
  ret cur.

Definition initialCursor : Cursor :=
  {| partIndex := 0; templatePartIndex := (-1)%Z; lastOffset := Some 0 |}.

(** The loop over [ast.childNodes], from fresh cursors. *)
Definition renderChildNodes (nodes : list Node) : Gen Cursor :=
  foldGen renderTopLevelNode nodes initialCursor.

(** What follows the loop: the last flush and the check of the cursor. *)
Definition finish (cur : Cursor) : Gen nat :=
  let* (chunk, cur) := lift (flushTo (html template) None cur) in
  yield chunk ;;
  if bool_decide (partIndex cur = length (values result)) then ret (partIndex cur)
  else throw (FinalPartIndex (partIndex cur) (length (values result))).

End Template.

(** [renderTemplateResult].  The generator returns nothing; a run is made to
    end with the final value of its local [partIndex], the number of values
    it consumed, so that statements can speak of it. *)
Definition renderTemplateResultWith (result : TemplateResult) : Gen nat :=
  let* template := getTemplate result in
  match getChildNodes (ast template) with
  | None => ret (partIndex initialCursor)
  | Some nodes =>
      let* cur := renderChildNodes result template nodes in
      finish result template cur
  end.

(** The render-light branch of [renderValue]. *)
Definition renderLight : Gen unit :=
  let* w := getWorld in
  match last (instances w) with
  | None => throw (TypeError "instance.instance")
  | Some frame =>
      match frame_instance frame with
      | Some l =>
          match heap w !! l with
          | Some e => self (elementRenderLight (classOf e) (props e))
          | None => throw (TypeError "instance.renderLight")
          end
      | None => ret tt
      end
  end.

Definition renderValueWith (v : value) : Gen unit :=
  match v with
  | VTemplateResult r =>
      yield ("<!--lit-part " +:+ digest r +:+ "-->") ;;
      renderTemplateResultWith r ;;
      ret tt
  | _ =>
      yield "<!--lit-part-->" ;;
      match v with
      | VUndefined | VNull => ret tt
      | VRepeat producer =>
          let* w := getWorld in
          let '(out, e) := producer (instances w) in
          yieldAll out ;;
          match e with Some e => throw e | None => ret tt end
      | VRenderLight => renderLight
      | VNothing | VNoChange => ret tt
      | VArray items => forEach self items
      | _ => yield (String_ v)
      end
  end ;;
  yield "<!--/lit-part-->".

End Open.

(** [renderValue], with a budget on the depth of the nested calls. *)
Fixpoint renderValue (fuel : nat) (v : value) : Gen unit :=
  match fuel with
  | O => exhausted
  | S fuel' => renderValueWith (renderValue fuel') v
  end.

Definition renderTemplateResult (fuel : nat) (result : TemplateResult) : Gen nat :=
  renderTemplateResultWith (renderValue fuel) result.

(** [render(value)]: a fresh [RenderInfo] with no frame. *)
Definition render (fuel : nat) (v : value) : Gen unit :=
  modify (setInstances []) ;; renderValue fuel v.

End Renderer.

(** ** A concrete setting: templates, their parses and two element classes

    The parser is a table from the HTML of the templates below to the trees
    parse5 builds for them, with their source offsets. *)

Module Example.

Definition digits : string := "123".

(** [html`<p>Hello, ${name}!</p>`] *)
Definition helloHtml : string := "<p>Hello, <!--{{lit-123}}-->!</p>".
Definition helloAst : Node :=
  DocumentFragment (Some [
    Element "p" [] 3 [TextNode "Hello, "; CommentNode "{{lit-123}}" 10 28; TextNode "!"]]).
Definition hello (vs : list value) : TemplateResult :=
  mkTemplateResult {| ident := 1; raw := ["<p>Hello, "; "!</p>"] |} vs "DIGEST" helloHtml.

(** [html`<div><x-foo></x-foo></div>`] *)
Definition nestedHtml : string := "<div><x-foo></x-foo></div>".
Definition xfooNode : Node := Element "x-foo" [] 12 [].
Definition divNode : Node := Element "div" [] 5 [xfooNode].
Definition nestedAst : Node := DocumentFragment (Some [divNode]).
Definition nested : TemplateResult :=
  mkTemplateResult {| ident := 2; raw := [nestedHtml] |} [] "NESTED" nestedHtml.

(** [html`<!--note--><p class=${c}></p>`] *)
Definition notedHtml : string := "<!--note--><p class$lit$={{lit-123}}></p>".
Definition notedAttr : Attribute :=
  {| attr_name := "class$lit$"; attr_value := "{{lit-123}}";
     attr_startOffset := 14; attr_endOffset := 36 |}.
Definition notedAst : Node :=
  DocumentFragment (Some [CommentNode "note" 0 11; Element "p" [notedAttr] 37 []]).
Definition noted (vs : list value) : TemplateResult :=
  mkTemplateResult {| ident := 3; raw := ["<!--note--><p class="; "></p>"] |} vs "NOTED" notedHtml.

(** [html`<input ?disabled=${d}>`] *)
Definition inputHtml : string := "<input ?disabled$lit$={{lit-123}}>".
Definition disabledAttr : Attribute :=
  {| attr_name := "?disabled$lit$"; attr_value := "{{lit-123}}";
     attr_startOffset := 7; attr_endOffset := 33 |}.
Definition inputAst : Node :=
  DocumentFragment (Some [Element "input" [disabledAttr] 34 []]).
Definition input (vs : list value) : TemplateResult :=
  mkTemplateResult {| ident := 4; raw := ["<input ?disabled="; ">"] |} vs "INPUT" inputHtml.

(** [html`<x-bad></x-bad>`], whose element class throws in its constructor. *)
Definition badHtml : string := "<x-bad></x-bad>".
Definition badAst : Node := DocumentFragment (Some [Element "x-bad" [] 7 []]).
Definition bad : TemplateResult :=
  mkTemplateResult {| ident := 5; raw := [badHtml] |} [] "BAD" badHtml.

(** [html`bare`], a template of text only. *)
Definition bareHtml : string := "bare".
Definition bareAst : Node := DocumentFragment (Some [TextNode "bare"]).
Definition bare (vs : list value) : TemplateResult :=
  mkTemplateResult {| ident := 6; raw := [bareHtml] |} vs "BARE" bareHtml.

(** [html`<x-host></x-host>`] *)
Definition hostHtml : string := "<x-host></x-host>".
Definition hostNode : Node := Element "x-host" [] 8 [].
Definition hostAst : Node := DocumentFragment (Some [hostNode]).
Definition host : TemplateResult :=
  mkTemplateResult {| ident := 7; raw := [hostHtml] |} [] "HOST" hostHtml.

(** A directive that reports the frame stack it is handed: the tag names,
    bottom first. *)
Definition probe : value :=
  VRepeat (fun frames => (map frame_tagName frames, None)).

(** The class of [x-host], which renders [html`<p>Hello, ${probe}!</p>`]. *)
Definition xhost : ElementClass :=
  {| ctorThrows := None;
     elementRender := fun _ => VTemplateResult (hello [probe]);
     elementRenderLight := fun _ => VStr "light" |}.

Definition xfoo : ElementClass :=
  {| ctorThrows := None;
     elementRender := fun _ => VStr "inner";
     elementRenderLight := fun _ => VStr "light" |}.

Definition xbad : ElementClass :=
  {| ctorThrows := Some "boom";
     elementRender := fun _ => VStr "never";
     elementRenderLight := fun _ => VStr "never" |}.

Definition ext : Externals :=
  {| rnd := digits;
     parseFragment := fun s =>
       if bool_decide (s = helloHtml) then helloAst
       else if bool_decide (s = nestedHtml) then nestedAst
       else if bool_decide (s = notedHtml) then notedAst
       else if bool_decide (s = inputHtml) then inputAst
       else if bool_decide (s = badHtml) then badAst
       else if bool_decide (s = hostHtml) then hostAst
       else if bool_decide (s = bareHtml) then bareAst
       else DocumentFragment (Some []);
     customElements := fun t =>
       if bool_decide (t = "x-foo") then Some xfoo
       else if bool_decide (t = "x-bad") then Some xbad
       else if bool_decide (t = "x-host") then Some xhost
       else None;
     reflectedAttributeName := fun _ _ => None;
     lastAttributeName := fun s =>
       if bool_decide (s = "<input ?disabled=") then Some "?disabled"
       else if bool_decide (s = "<!--note--><p class=") then Some "class"
       else None;
     functionSource := "function () { [native code] }" |}.

(** Another parser, which builds the empty fragment for every source. *)
Definition otherExt : Externals :=
  {| rnd := digits;
     parseFragment := fun _ => DocumentFragment (Some []);
     customElements := customElements ext;
     reflectedAttributeName := reflectedAttributeName ext;
     lastAttributeName := lastAttributeName ext;
     functionSource := functionSource ext |}.

Definition emptyWorld : World :=
  {| templateCache := ∅; instances := []; heap := []; console := [] |}.

Definition someCursor : Cursor :=
  {| partIndex := 0; templatePartIndex := (-1)%Z; lastOffset := Some 3 |}.

End Example.

(** ** The hydration markers around a rendered value *)

Definition closing : string := "<!--/lit-part-->".

(** The opening comment: with the digest for a template result, bare otherwise. *)
Definition opening (v : value) : string :=
  match v with
  | VTemplateResult r => "<!--lit-part " +:+ digest r +:+ "-->"
  | _ => "<!--lit-part-->"
  end.

(** ** Attribute values and value slots *)

(** The static fragments of an attribute value with, between them, the texts
    of the values from [startIndex] on. *)
Fixpoint weave (ext : Externals) (statics : list string) (vals : list value)
    (startIndex : nat) : string :=
  match statics with
  | [] => ""
  | [s] => s
  | s :: rest =>
      s +:+ resolveAttrValue ext (vals !! startIndex) +:+ weave ext rest vals (S startIndex)
  end.

(** The values a part stands for: one for a node part, one per marker in
    the raw value for an attribute part. *)
Definition slots (p : TemplatePart) : nat :=
  match p with
  | NodePart _ => 1
  | AttributePart _ _ strings => length strings - 1
  end.

Definition slotCount (ps : list TemplatePart) : nat := sum_list (map slots ps).

(** ** Nodes without dynamic content *)

(** A node that takes no part in a render: a comment that is not the marker,
    an element that has no bound attribute and is not a registered custom
    element, a text. *)
Definition inertNode (ext : Externals) (node : Node) : bool :=
  match node with
  | CommentNode data _ _ => negb (bool_decide (data = marker (rnd ext)))
  | Element tagName attrs _ _ =>
      forallb (fun attr => negb (JS.endsWith (attr_name attr) "$lit$")) attrs
      && negb (JS.includesChar "-"%char tagName
               && match customElements ext tagName with Some _ => true | None => false end)
  | _ => true
  end.

(** The cursors of a traversal are in step with a list of parts when every
    part of the list has been passed and its values consumed. *)
Definition inStep (ps : list TemplatePart) (cur : Cursor) : Prop :=
  (templatePartIndex cur + 1)%Z = Z.of_nat (length ps) /\ partIndex cur = slotCount ps.

(** ** More templates

    A second table of parses: a template without dynamic content, and one
    with a property, an event and a two-marker attribute on a custom element. *)

Module Sample.

(** [html`<section><!--note--><p>plain</p></section>`] *)
Definition staticHtml : string := "<section><!--note--><p>plain</p></section>".
Definition staticAst : Node :=
  DocumentFragment (Some [
    Element "section" [] 9 [CommentNode "note" 9 20; Element "p" [] 23 [TextNode "plain"]]]).
Definition static (vs : list value) : TemplateResult :=
  mkTemplateResult {| ident := 11; raw := [staticHtml] |} vs "STATIC" staticHtml.

(** [html`<x-card .title=${t} @click=${f} class="a ${b} c ${d}">${body}</x-card>`] *)
Definition cardHtml : string :=
  "<x-card .title$lit$={{lit-7}} @click$lit$={{lit-7}} class$lit$=" +:+ dquote
  +:+ "a {{lit-7}} c {{lit-7}}" +:+ dquote +:+ "><!--{{lit-7}}--></x-card>".
Definition titleAttr : Attribute :=
  {| attr_name := ".title$lit$"; attr_value := "{{lit-7}}";
     attr_startOffset := 8; attr_endOffset := 29 |}.
Definition clickAttr : Attribute :=
  {| attr_name := "@click$lit$"; attr_value := "{{lit-7}}";
     attr_startOffset := 30; attr_endOffset := 51 |}.
Definition classAttr : Attribute :=
  {| attr_name := "class$lit$"; attr_value := "a {{lit-7}} c {{lit-7}}";
     attr_startOffset := 52; attr_endOffset := 88 |}.
Definition cardNode : Node :=
  Element "x-card" [titleAttr; clickAttr; classAttr] 89 [CommentNode "{{lit-7}}" 89 105].
Definition cardAst : Node := DocumentFragment (Some [cardNode]).
Definition card (vs : list value) : TemplateResult :=
  mkTemplateResult
    {| ident := 12;
       raw := ["<x-card .title="; " @click="; " class=" +:+ dquote +:+ "a "; " c ";
               dquote +:+ ">"; "</x-card>"] |}
    vs "CARD" cardHtml.

(** The class of [x-card] renders its [title] property. *)
Definition xcard : ElementClass :=
  {| ctorThrows := None;
     elementRender := fun props => default (VStr "untitled") (props !! "title");
     elementRenderLight := fun _ => VNothing |}.

Definition ext : Externals :=
  {| rnd := "7";
     parseFragment := fun s =>
       if bool_decide (s = staticHtml) then staticAst
       else if bool_decide (s = cardHtml) then cardAst
       else DocumentFragment (Some []);
     customElements := fun t => if bool_decide (t = "x-card") then Some xcard else None;
     reflectedAttributeName := fun t p =>
       if bool_decide (t = "x-card") && bool_decide (p = "title") then Some "title" else None;
     lastAttributeName := fun s =>
       if bool_decide (s = "<x-card .title=") then Some ".title"
       else if bool_decide (s = " @click=") then Some "@click"
       else if bool_decide (s = " class=" +:+ dquote +:+ "a ") then Some "class"
       else None;
     functionSource := "function () { [native code] }" |}.

Definition cardValues : list value :=
  [VStr "Hi"; VRepeat (fun _ => ([], None)); VStr "b"; VClassMap "d e"; VStr "body"].

End Sample.

(** The error of a bindings comment that finds no part:
    [templateParts[templatePartIndex]] is [undefined]. *)
Definition missingPart : Exn := TypeError "templatePart.index".


(** What a run may do to the template cache: keep every entry, and add
    prepared templates under the identity of their strings. *)
Definition cacheGrows (ext : Externals) (w w' : World) : Prop :=
  (forall k t, templateCache w !! k = Some t -> templateCache w' !! k = Some t) /\
  (forall k t, templateCache w' !! k = Some t ->
     templateCache w !! k = Some t \/
     exists result, ident (strings result) = k /\ t = parseTemplate ext result).

(** What a completed run may do to the frame stack: the frames below the
    top are untouched, and the top keeps its tag name. *)
Definition sameStack (w w' : World) : Prop :=
  removelast (instances w') = removelast (instances w) /\
  map frame_tagName (instances w') = map frame_tagName (instances w).

(** A generator that treats the cache so, however it ends. *)
Definition preservesCache (ext : Externals) {A} (m : Gen A) : Prop :=
  forall w, cacheGrows ext w (world (m w)).

(** A generator that, when it completes, leaves the frame stack so. *)
Definition balanced {A} (m : Gen A) : Prop :=
  forall w a, completion (m w) = Done a -> sameStack w (world (m w)).

(** ** The scoped style sheets *)

(** What the static [styles] of an element class can hold: nothing, a
    [CSSResult], something that is not one, or an array of these to any depth. *)
Inductive Styles :=
| NoStyles
| CSSResult (cssText : string)
| OtherStyle
| StyleArray (items : list Styles).

(** [[styles].flat(Infinity)] *)
Fixpoint flat (styles : Styles) : list Styles :=
  match styles with
  | StyleArray items => flat_map flat items
  | _ => [styles]
  end.

(** [getScopedStyles], over the entries of [customElements.__definitions] in
    the order of the map; [css] is [StyleTransformer.css]. *)
Definition getScopedStyles (css : string -> string -> string)
    (definitions : list (string * Styles)) : list string :=
  fold_left
    (fun scopedStyles '(tagName, ctorStyles) =>
       fold_left
         (fun scopedStyles style =>
            match style with
            | CSSResult cssText => scopedStyles ++ [css cssText tagName]
            | _ => scopedStyles
            end)
         (flat ctorStyles) scopedStyles)
    definitions [].

(** A [CSSResult] with text [cssText] is held in [styles], at any depth. *)
Inductive holds (cssText : string) : Styles -> Prop :=
| holds_here : holds cssText (CSSResult cssText)
| holds_in (items : list Styles) (style : Styles) :
    In style items -> holds cssText style -> holds cssText (StyleArray items).

(** The texts of the [CSSResult]s held in [styles], in order. *)
Fixpoint cssTextsOf (styles : Styles) : list string :=
  match styles with
  | CSSResult cssText => [cssText]
  | StyleArray items => flat_map cssTextsOf items
  | _ => []
  end.

(** ** The stream over an iterable *)

(** A [Readable] as [_read] sees it: the iterator it holds, what has been
    handed to [push] so far ([None] for [null], the end of the stream), and
    the ['error'] events emitted. *)
Record Readable (T I : Type) := mkReadable {
  _iterator : I;
  pushed : list (option T);
  errorEvents : list Exn
}.
Arguments mkReadable {T I} _ _ _.
Arguments _iterator {T I} _.
Arguments pushed {T I} _.
Arguments errorEvents {T I} _.

Section IterableReader.

Variables T I : Type.

(** [iterator.next()]: a result, [None] when [done], or an exception; and
    the iterator afterwards. *)
Variable next : I -> (Exn + option T) * I.

(** The constructor, on the iterator of the iterable. *)
Definition IterableReader (iterator : I) : Readable T I := mkReadable iterator [] [].

Definition _read (r : Readable T I) : Readable T I :=
  match next (_iterator r) with
  | (inr result, iterator) => mkReadable iterator (pushed r ++ [result]) (errorEvents r)
  | (inl e, iterator) => mkReadable iterator (pushed r) (errorEvents r ++ [e])
  end.

(** [n] calls of [_read] in a row. *)
Fixpoint reads (n : nat) (r : Readable T I) : Readable T I :=
  match n with
  | O => r
  | S n' => reads n' (_read r)
  end.

End IterableReader.
Arguments IterableReader {T I} iterator.
Arguments _read {T I} next r.
Arguments reads {T I} next n r.

(** The iterator of a generator that is still to yield [chunks] and then to
    throw the pending exception, if there is one, or else to return.  A
    generator that has thrown is finished. *)
Definition generatorNext (g : list string * option Exn)
    : (Exn + option string) * (list string * option Exn) :=
  match g with
  | (chunk :: rest, pending) => (inr (Some chunk), (rest, pending))
  | ([], Some e) => (inl e, ([], None))
  | ([], None) => (inr None, ([], None))
  end.

(** The generator object of a run. *)
Definition generatorOf {A} (run : Run A) : list string * option Exn :=
  (chunks run, match completion run with Throw e => Some e | _ => None end).

(** ** Templates with child bindings only *)

(** The values [renderValue] renders without a nested render. *)
Definition leafValue (v : value) : bool :=
  match v with
  | VUndefined | VNull | VNothing | VNoChange
  | VBool _ | VNum _ | VStr _ | VClassMap _ => true
  | _ => false
  end.

(** The text a leaf value is rendered as, between its two comments. *)
Definition wrapped (ext : Externals) (v : value) : string :=
  opening v +:+
  match v with
  | VUndefined | VNull | VNothing | VNoChange => ""
  | _ => String_ ext v
  end +:+
  closing.

(** A node that is a comment, or neither carries a bound attribute nor is a
    registered custom element. *)
Definition childOnly (ext : Externals) (node : Node) : bool :=
  match node with
  | CommentNode _ _ _ => true
  | _ => inertNode ext node
  end.

(** The source ranges of the marker comments among [l], in order. *)
Definition holesOf (ext : Externals) (l : list Node) : list (nat * nat) :=
  flat_map (fun node =>
              match node with
              | CommentNode data startOffset endOffset =>
                  if bool_decide (data = marker (rnd ext)) then [(startOffset, endOffset)]
                  else []
              | _ => []
              end) l.

(** [html] from [from] on, with each range of [holes] replaced by the piece
    that goes with it. *)
Fixpoint filled (html : string) (from : nat) (holes : list (nat * nat))
    (pieces : list string) : string :=
  match holes, pieces with
  | (startOffset, endOffset) :: holes', piece :: pieces' =>
      JS.substring html (Some from) (Some startOffset) +:+ piece +:+
      filled html endOffset holes' pieces'
  | _, _ => JS.substring html (Some from) None
  end.

(** ** The branch of [renderValue]

    What [renderValue] runs between the two comments it yields itself: the
    body of the branch taken on the value. *)
Definition renderValueBranch (ext : Externals) (self : value -> Gen unit) (v : value)
    : Gen unit :=
  match v with
  | VTemplateResult r => renderTemplateResultWith ext self r ;; ret tt
  | VUndefined | VNull => ret tt
  | VRepeat producer =>
      let* w := getWorld in
      let '(out, e) := producer (instances w) in
      yieldAll out ;;
      match e with Some e => throw e | None => ret tt end
  | VRenderLight => renderLight self
  | VNothing | VNoChange => ret tt
  | VArray items => forEach self items
  | _ => yield (String_ ext v)
  end.


(** * Properties *)

(** ** Strings *)

Lemma get_beyond (s : string) (n : nat) :
  String.length s <= n -> String.get n s = None.
Proof.
  revert n. induction s as [|c s IH]; intros n Hn; simpl in *.
  - reflexivity.
  - destruct n as [|n]; [lia|]. apply IH. lia.
Qed.

(** The chunk between two offsets in order holds exactly the characters of
    the source between them. *)
Lemma substring_between (s : string) (l to p : nat) :
  l <= to ->
  String.get p (JS.substring s (Some l) (Some to)) =
  if (p <? to - l)%nat then String.get (l + p) s else None.
Proof.
  intros Hle. unfold JS.substring. simpl.
  set (len := String.length s).
  rewrite (Nat.min_l (Nat.min l len) (Nat.min to len)) by lia.
  rewrite (Nat.max_r (Nat.min l len) (Nat.min to len)) by lia.
  destruct (Nat.ltb_spec p (to - l)) as [Hp|Hp].
  - destruct (Nat.lt_ge_cases p (Nat.min to len - Nat.min l len)) as [Hin|Hout].
    + rewrite String.substring_correct1 by exact Hin.
      f_equal. lia.
    + rewrite String.substring_correct2 by exact Hout.
      symmetry. apply get_beyond. fold len. lia.
  - apply String.substring_correct2. lia.
Qed.

(** The last flush, to no offset, emits the source from the offset on. *)
Lemma substring_to_end (s : string) (l p : nat) :
  String.get p (JS.substring s (Some l) None) = String.get (l + p) s.
Proof.
  unfold JS.substring. simpl.
  set (len := String.length s).
  rewrite Nat.min_id.
  rewrite (Nat.min_l (Nat.min l len) len) by lia.
  rewrite (Nat.max_r (Nat.min l len) len) by lia.
  destruct (Nat.lt_ge_cases p (len - Nat.min l len)) as [Hin|Hout].
  - rewrite String.substring_correct1 by exact Hin. f_equal. lia.
  - rewrite String.substring_correct2 by exact Hout.
    symmetry. apply get_beyond. fold len. lia.
Qed.

(** ** The offset primitives *)

(** C9: [flushTo] throws exactly when [lastOffset] is undefined; [skipTo]
    throws then too, and when the target lies strictly before [lastOffset].
    Otherwise [flushTo] returns the substring of the HTML from [lastOffset] to
    the target (to the end, for no target), whose characters are those of the
    HTML between the two offsets when they are in order, and both set
    [lastOffset] to the target: the cursor they leave has the target for its
    [lastOffset] and the two indices of the cursor before. *)
Theorem offset_primitives (html : string) (cur : Cursor) :
  (lastOffset cur = None ->
     (forall to, flushTo html to cur = inl LastOffsetUndefined) /\
     (forall to, skipTo to cur = inl LastOffsetUndefined)) /\
  (forall last, lastOffset cur = Some last ->
     (forall to,
        flushTo html to cur =
          inr (JS.substring html (Some last) to, setLastOffset to cur)) /\
     (forall to p, last <= to ->
        String.get p (JS.substring html (Some last) (Some to)) =
          if (p <? to - last)%nat then String.get (last + p) html else None) /\
     (forall p,
        String.get p (JS.substring html (Some last) None) = String.get (last + p) html) /\
     (forall to, to < last -> skipTo to cur = inl (BackwardsSkip to last)) /\
     (forall to, last <= to -> skipTo to cur = inr (setLastOffset (Some to) cur)) /\
     (forall to,
        exists cur',
          flushTo html to cur = inr (JS.substring html (Some last) to, cur') /\
          lastOffset cur' = to /\
          partIndex cur' = partIndex cur /\
          templatePartIndex cur' = templatePartIndex cur) /\
     (forall to, last <= to ->
        exists cur',
          skipTo to cur = inr cur' /\
          lastOffset cur' = Some to /\
          partIndex cur' = partIndex cur /\
          templatePartIndex cur' = templatePartIndex cur)).
Proof.
  split.
  - intros Hnone. unfold flushTo, skipTo. rewrite Hnone. split; reflexivity.
  - intros last Hlast. unfold flushTo, skipTo. rewrite Hlast.
    split; [reflexivity|].
    split; [intros to p Hle; apply substring_between; exact Hle|].
    split; [intros p; apply substring_to_end|].
    split; [intros to Hto; destruct (Nat.ltb_spec to last); [reflexivity|lia]|].
    split; [intros to Hto; destruct (Nat.ltb_spec to last); [lia|reflexivity]|].
    split.
    + intros to. eexists. split; [reflexivity|]. repeat split.
    + intros to Hto. destruct (Nat.ltb_spec to last); [lia|].
      eexists. split; [reflexivity|]. repeat split.
Qed.

Lemma offset_primitives_witness :
  flushTo "<p>Hello</p>" (Some 8) Example.someCursor =
    inr ("Hello", setLastOffset (Some 8) Example.someCursor) /\
  skipTo 2 Example.someCursor = inl (BackwardsSkip 2 3) /\
  skipTo 3 Example.someCursor = inr (setLastOffset (Some 3) Example.someCursor) /\
  flushTo "<p>Hello</p>" (Some 8) (setLastOffset None Example.someCursor) =
    inl LastOffsetUndefined /\
  (exists cur',
     skipTo 5 Example.someCursor = inr cur' /\
     lastOffset cur' = Some 5 /\
     partIndex cur' = partIndex Example.someCursor /\
     templatePartIndex cur' = templatePartIndex Example.someCursor).
Proof.
  destruct (offset_primitives "<p>Hello</p>" Example.someCursor) as [_ Hsome].
  destruct (Hsome 3 eq_refl) as (Hflush & _ & _ & Hback & Hskip & _ & Hskipped).
  destruct (offset_primitives "<p>Hello</p>" (setLastOffset None Example.someCursor))
    as [Hnone _].
  destruct (Hnone eq_refl) as [Hundef _].
  split; [exact (Hflush (Some 8))|].
  split; [apply Hback; lia|].
  split; [apply Hskip; lia|].
  split; [exact (Hundef (Some 8))|].
  apply Hskipped. lia.
Defined.

(** ** The part extractor *)

(** The index moves by two over every comment node, whether or not it is the
    marker, and by one over every other node. *)
Lemma extractStep_index (ext : Externals) (nodeIndex : Z) (ps : list TemplatePart) (node : Node) :
  fst (extractStep ext (nodeIndex, ps) node) =
  (nodeIndex + (if isCommentNode node then 2 else 1))%Z.
Proof.
  destruct node as [cs|tag attrs off cs|data so eo|text]; simpl.
  - reflexivity.
  - destruct (0 <? length attrs)%nat; reflexivity.
  - lia.
  - reflexivity.
Qed.

(** A marker comment records a [NodePart] at the index before the step. *)
Lemma extractStep_marker (ext : Externals) (nodeIndex : Z) (ps : list TemplatePart)
    (so eo : nat) :
  extractStep ext (nodeIndex, ps) (CommentNode (marker (rnd ext)) so eo) =
  ((nodeIndex + 2)%Z, ps ++ [NodePart nodeIndex]).
Proof.
  simpl. rewrite bool_decide_eq_true_2 by reflexivity. f_equal. lia.
Qed.

(** C2: over a comment node whose text is not the marker the extractor
    records no part and yet moves the index by two, not by one. *)
Theorem extractStep_plain_comment (ext : Externals) (nodeIndex : Z) (ps : list TemplatePart)
    (data : string) (so eo : nat) :
  data <> marker (rnd ext) ->
  extractStep ext (nodeIndex, ps) (CommentNode data so eo) = ((nodeIndex + 2)%Z, ps).
Proof.
  intros Hne. simpl. rewrite bool_decide_eq_false_2 by exact Hne. f_equal. lia.
Qed.

(** In [<!--note--><p class=${c}></p>] the element is the second node, of
    index 1, and its attribute part gets index 2. *)
Lemma extractStep_plain_comment_witness :
  extractStep Example.ext (0%Z, []) (CommentNode "note" 0 11) = (2%Z, []) /\
  extractParts Example.ext Example.notedAst = (3%Z, [AttributePart 2 "class" [""; ""]]).
Proof.
  split.
  - apply (extractStep_plain_comment Example.ext 0 [] "note" 0 11). discriminate.
  - vm_compute. reflexivity.
Defined.

(** ** Runs *)

Lemma bind_chunks {A B} (m : Gen A) (k : A -> Gen B) (w : World) :
  exists rest, chunks (bind m k w) = chunks (m w) ++ rest.
Proof.
  unfold bind. destruct (completion (m w)); simpl.
  - eexists. reflexivity.
  - exists []. symmetry. apply app_nil_r.
  - exists []. symmetry. apply app_nil_r.
Qed.

Lemma bind_done {A B} (m : Gen A) (k : A -> Gen B) (w : World) (b : B) :
  completion (bind m k w) = Done b ->
  exists a,
    completion (m w) = Done a /\
    completion (k a (world (m w))) = Done b /\
    chunks (bind m k w) = chunks (m w) ++ chunks (k a (world (m w))) /\
    world (bind m k w) = world (k a (world (m w))).
Proof.
  unfold bind. destruct (completion (m w)) as [a| |] eqn:Hm; simpl; intros H.
  - exists a. auto.
  - discriminate.
  - discriminate.
Qed.

Lemma bind_of_done {A B} (m : Gen A) (k : A -> Gen B) (w : World) (a : A) :
  completion (m w) = Done a ->
  bind m k w =
    mkRun (chunks (m w) ++ chunks (k a (world (m w))))
          (world (k a (world (m w)))) (completion (k a (world (m w)))).
Proof. unfold bind. intros ->. reflexivity. Qed.

Lemma bind_of_throw {A B} (m : Gen A) (k : A -> Gen B) (w : World) (e : Exn) :
  completion (m w) = Throw e ->
  bind m k w = mkRun (chunks (m w)) (world (m w)) (Throw e).
Proof. unfold bind. intros ->. reflexivity. Qed.

Lemma run_eta {A} (r : Run A) : mkRun (chunks r) (world r) (completion r) = r.
Proof. destruct r. reflexivity. Qed.

(** A step that yields nothing and cannot fail hands its result and state to
    what follows. *)
Lemma bind_silent {A B} (m : Gen A) (k : A -> Gen B) (w w' : World) (a : A) :
  m w = mkRun [] w' (Done a) -> bind m k w = k a w'.
Proof. intros Hm. unfold bind. rewrite Hm. simpl. apply run_eta. Qed.

(** ** The wrapping of a rendered value *)

Lemma renderValueWith_opening (ext : Externals) (self : value -> Gen unit)
    (v : value) (w : World) :
  exists rest, chunks (renderValueWith ext self v w) = opening v :: rest.
Proof.
  unfold renderValueWith.
  match goal with
  | |- context [bind ?m ?k w] =>
      destruct (bind_chunks m k w) as [tl Htl];
      assert (Hhead : exists rest, chunks (m w) = opening v :: rest)
  end.
  { destruct v; simpl; eexists; reflexivity. }
  destruct Hhead as [rest Hrest]. rewrite Htl, Hrest. eexists. reflexivity.
Qed.

(** [renderValue] is its opening comment, the branch taken on the value, and
    its closing comment, run in this order. *)
Lemma renderValueWith_branch (ext : Externals) (self : value -> Gen unit) (v : value) :
  renderValueWith ext self v =
  ((yield (opening v) ;; renderValueBranch ext self v) ;; yield closing)%gen.
Proof. destruct v; reflexivity. Qed.

(** C3, as the code has it: the first chunk of [renderValue] is always the
    opening comment, with the digest for a template result and bare
    otherwise.  When the call completes without throwing, its chunks are the
    opening comment, the chunks of the branch and the closing comment.  When
    it throws, it is the branch that threw, and the chunks are the opening
    comment and the chunks the branch yielded before the exception, with no
    closing comment after them. *)
Theorem renderValue_wrapped (ext : Externals) (fuel : nat) (v : value) (w : World) :
  (exists rest, chunks (renderValue ext (S fuel) v w) = opening v :: rest) /\
  (completion (renderValue ext (S fuel) v w) = Done tt ->
   completion (renderValueBranch ext (renderValue ext fuel) v w) = Done tt /\
   chunks (renderValue ext (S fuel) v w) =
     opening v :: chunks (renderValueBranch ext (renderValue ext fuel) v w) ++ [closing]) /\
  (forall e,
     completion (renderValue ext (S fuel) v w) = Throw e ->
     completion (renderValueBranch ext (renderValue ext fuel) v w) = Throw e /\
     chunks (renderValue ext (S fuel) v w) =
       opening v :: chunks (renderValueBranch ext (renderValue ext fuel) v w)).
Proof.
  cbn [renderValue]. split; [apply renderValueWith_opening|].
  rewrite renderValueWith_branch. unfold bind. cbn [yield completion world chunks].
  destruct (completion (renderValueBranch ext (renderValue ext fuel) v w))
    as [[]|e'|] eqn:Hbranch; cbn [completion chunks yield app].
  - split; [intros _; split; reflexivity|]. intros e He. discriminate He.
  - split; [intros Hdone; discriminate Hdone|].
    intros e He. injection He as <-. split; reflexivity.
  - split; [intros Hdone; discriminate Hdone|]. intros e He. discriminate He.
Qed.

Lemma renderValue_wrapped_witness :
  chunks (renderValue Example.ext 3 (VTemplateResult (Example.hello [VStr "World"]))
            Example.emptyWorld) =
  ["<!--lit-part DIGEST-->"; "<p>Hello, "; "<!--lit-part-->"; "World";
   "<!--/lit-part-->"; "!</p>"; "<!--/lit-part-->"] /\
  exists middle,
    chunks (renderValue Example.ext 3 (VTemplateResult (Example.hello [VStr "World"]))
              Example.emptyWorld) =
    "<!--lit-part DIGEST-->" :: middle ++ [closing].
Proof.
  split; [vm_compute; reflexivity|].
  destruct (renderValue_wrapped Example.ext 2
              (VTemplateResult (Example.hello [VStr "World"])) Example.emptyWorld)
    as (_ & Hdone & _).
  destruct Hdone as [_ Hchunks]; [vm_compute; reflexivity|].
  eexists. exact Hchunks.
Defined.

(** The closing comment is missing when the body throws: a render-light
    directive rendered on an empty frame stack yields the opening comment
    and nothing more. *)
Lemma renderValue_unwrapped_on_throw :
  chunks (renderValue Example.ext 1 VRenderLight Example.emptyWorld) = [opening VRenderLight] /\
  completion (renderValue Example.ext 1 VRenderLight Example.emptyWorld) =
    Throw (TypeError "instance.instance") /\
  ~ (exists middle,
       chunks (renderValue Example.ext 1 VRenderLight Example.emptyWorld) =
       opening VRenderLight :: middle ++ [closing]).
Proof.
  split; [reflexivity|]. split; [reflexivity|].
  intros [middle H]. simpl in H.
  destruct middle; simpl in H; discriminate.
Qed.

(** C10: on an empty frame stack, as [render] sets it up, a render-light
    directive makes [renderValue] throw on reading the missing top frame,
    after the opening comment and before any closing one. *)
Theorem renderLight_needs_a_frame (ext : Externals) (fuel : nat) (w : World) :
  instances w = [] ->
  renderValue ext (S fuel) VRenderLight w =
    mkRun ["<!--lit-part-->"] w (Throw (TypeError "instance.instance")) /\
  render ext (S fuel) VRenderLight w =
    mkRun ["<!--lit-part-->"] (setInstances [] w) (Throw (TypeError "instance.instance")).
Proof.
  intros Hempty. split.
  - simpl. unfold renderValueWith, renderLight, bind, getWorld. simpl.
    rewrite Hempty. reflexivity.
  - reflexivity.
Qed.

Lemma renderLight_needs_a_frame_witness :
  renderValue Example.ext 1 VRenderLight Example.emptyWorld =
    mkRun ["<!--lit-part-->"] Example.emptyWorld (Throw (TypeError "instance.instance")) /\
  render Example.ext 1 VRenderLight Example.emptyWorld =
    mkRun ["<!--lit-part-->"] (setInstances [] Example.emptyWorld)
      (Throw (TypeError "instance.instance")).
Proof.
  apply (renderLight_needs_a_frame Example.ext 0 Example.emptyWorld). reflexivity.
Defined.

(** With a frame on the stack that holds no instance the same value renders
    as the empty wrapped output. *)
Lemma renderLight_on_plain_frame (ext : Externals) (fuel : nat) (w : World) (frame : Frame) :
  last (instances w) = Some frame ->
  frame_instance frame = None ->
  renderValue ext (S fuel) VRenderLight w =
    mkRun ["<!--lit-part-->"; "<!--/lit-part-->"] w (Done tt).
Proof.
  intros Htop Hnone. simpl.
  unfold renderValueWith, renderLight, bind, getWorld. simpl.
  rewrite Htop, Hnone. reflexivity.
Qed.

(** ** The template cache *)

Lemma getTemplate_run (ext : Externals) (result : TemplateResult) (w : World) :
  exists t,
    getTemplate ext result w = mkRun [] (world (getTemplate ext result w)) (Done t) /\
    templateCache (world (getTemplate ext result w)) !! ident (strings result) = Some t /\
    instances (world (getTemplate ext result w)) = instances w /\
    heap (world (getTemplate ext result w)) = heap w /\
    console (world (getTemplate ext result w)) = console w.
Proof.
  unfold getTemplate.
  destruct (templateCache w !! ident (strings result)) as [t|] eqn:Hlookup; simpl.
  - exists t. auto.
  - exists (parseTemplate ext result). rewrite lookup_insert_eq. auto.
Qed.

(** C8: the first call for an identity that is not cached parses the HTML,
    extracts the parts and stores the result under the identity; after any
    call, a call for the same identity returns the same parsed template
    whatever parser it is linked against and leaves the cache as it is; and a
    render that starts from the cache so filled is the render that starts
    from the cache before. *)
Theorem getTemplate_memoized (ext ext' : Externals) (result result' : TemplateResult)
    (w : World) :
  ident (strings result') = ident (strings result) ->
  (templateCache w !! ident (strings result) = None ->
     completion (getTemplate ext result w) = Done (parseTemplate ext result) /\
     templateCache (world (getTemplate ext result w)) =
       <[ident (strings result) := parseTemplate ext result]> (templateCache w)) /\
  getTemplate ext' result' (world (getTemplate ext result w)) =
    mkRun [] (world (getTemplate ext result w)) (completion (getTemplate ext result w)) /\
  (forall self,
     renderTemplateResultWith ext self result (world (getTemplate ext result w)) =
     renderTemplateResultWith ext self result w).
Proof.
  intros Hsame.
  assert (Hagain : forall e r, ident (strings r) = ident (strings result) ->
            getTemplate e r (world (getTemplate ext result w)) =
            mkRun [] (world (getTemplate ext result w))
                  (completion (getTemplate ext result w))).
  { intros e r Hr.
    destruct (getTemplate_run ext result w) as (t & Hrun & Hcached & _).
    rewrite Hrun at 3. simpl.
    unfold getTemplate at 1. rewrite Hr, Hcached. reflexivity. }
  split; [|split].
  - intros Hfresh. unfold getTemplate. rewrite Hfresh. simpl. auto.
  - apply Hagain. exact Hsame.
  - intros self. unfold renderTemplateResultWith, bind.
    rewrite (Hagain ext result eq_refl). simpl.
    destruct (getTemplate_run ext result w) as (t & Hrun & _).
    rewrite Hrun. simpl. reflexivity.
Qed.

Lemma getTemplate_memoized_witness :
  completion (getTemplate Example.ext (Example.hello [VStr "World"]) Example.emptyWorld) =
    Done {| html := Example.helloHtml; ast := Example.helloAst; parts := [NodePart 2] |} /\
  getTemplate Example.otherExt (Example.hello [VNum 7])
    (world (getTemplate Example.ext (Example.hello [VStr "World"]) Example.emptyWorld)) =
    mkRun []
      (world (getTemplate Example.ext (Example.hello [VStr "World"]) Example.emptyWorld))
      (Done {| html := Example.helloHtml; ast := Example.helloAst; parts := [NodePart 2] |}).
Proof.
  destruct (getTemplate_memoized Example.ext Example.otherExt
              (Example.hello [VStr "World"]) (Example.hello [VNum 7])
              Example.emptyWorld eq_refl) as (Hfirst & Hsecond & _).
  destruct (Hfirst eq_refl) as [Hparsed _].
  split.
  - exact Hparsed.
  - rewrite Hsecond. rewrite Hparsed. reflexivity.
Defined.

(** ** The cursors along the traversal *)

Lemma foldGen_invariant {S A} (P : S -> Prop) (f : S -> A -> Gen S) :
  (forall s x w s', P s -> completion (f s x w) = Done s' -> P s') ->
  forall l s w s', P s -> completion (foldGen f l s w) = Done s' -> P s'.
Proof.
  intros Hstep l. induction l as [|x l IH]; intros s w s' Hs Hdone; simpl in Hdone.
  - injection Hdone as <-. exact Hs.
  - apply bind_done in Hdone. destruct Hdone as (s1 & Hfirst & Hrest & _).
    eapply IH; [|exact Hrest]. eapply Hstep; eassumption.
Qed.

Ltac done_inversion :=
  repeat match goal with
  | H : completion (bind _ _ _) = Done _ |- _ =>
      let a := fresh "a" in
      let Hm := fresh "Hm" in
      let Hk := fresh "Hk" in
      apply bind_done in H; destruct H as (a & Hm & Hk & _ & _)
  | H : completion (ret _ _) = Done _ |- _ => simpl in H; injection H as H; subst
  | H : completion (throw _ _) = Done _ |- _ => discriminate H
  end.

Lemma handleBinding_lastOffset (ext : Externals) (result : TemplateResult)
    (tagName : string) (instance : option nat) (attr : Attribute)
    (name attributeName : string) (statics : list string) (cur cur' : Cursor) (w : World) :
  completion (handleBinding ext result tagName instance attr name attributeName statics cur w)
    = Done cur' ->
  lastOffset cur' = lastOffset cur.
Proof.
  unfold handleBinding.
  destruct (JS.startsWith name ".").
  { destruct (bool_decide (length statics = 2)); intros H; done_inversion; reflexivity. }
  destruct (JS.startsWith name "@").
  { intros H; done_inversion; reflexivity. }
  destruct (JS.startsWith name "?").
  { destruct (bool_decide (statics = [""; ""])); intros H; done_inversion; reflexivity. }
  intros H; done_inversion; reflexivity.
Qed.

Lemma lift_done {A} (r : Exn + A) (w : World) (a : A) :
  completion (lift r w) = Done a -> r = inr a.
Proof.
  destruct r as [e|a']; simpl; intros H; [discriminate|]. injection H as <-. reflexivity.
Qed.

Lemma skipTo_defined (offset : nat) (cur cur' : Cursor) :
  skipTo offset cur = inr cur' -> lastOffset cur' = Some offset.
Proof.
  unfold skipTo. destruct (lastOffset cur) as [last|]; [|discriminate].
  destruct (offset <? last)%nat; [discriminate|].
  intros H. injection H as <-. reflexivity.
Qed.

Lemma flushTo_defined (html : string) (offset : option nat) (cur cur' : Cursor) (chunk : string) :
  flushTo html offset cur = inr (chunk, cur') -> lastOffset cur' = offset.
Proof.
  unfold flushTo. destruct (lastOffset cur) as [last|]; [|discriminate].
  intros H. injection H as _ <-. reflexivity.
Qed.

Section Traversal.

Variable ext : Externals.
Variable self : value -> Gen unit.
Variable result : TemplateResult.
Variable template : ParsedTemplate.

Lemma handleAttr_lastOffset (tagName : string) (instance : option nat)
    (acc acc' : Cursor * nat) (attr : Attribute) (w : World) :
  lastOffset (fst acc) <> None ->
  completion (handleAttr ext result template tagName instance acc attr w) = Done acc' ->
  lastOffset (fst acc') <> None.
Proof.
  destruct acc as [cur n]. unfold handleAttr. simpl. intros Hcur.
  destruct (JS.endsWith (attr_name attr) "$lit$").
  - destruct (lastAttributeName ext _) as [name|]; [|discriminate].
    intros H. done_inversion.
    apply lift_done, skipTo_defined in Hm1. simpl. rewrite Hm1. discriminate.
  - intros H. done_inversion. exact Hcur.
Qed.

Lemma elementBody_lastOffset (tagName : string) (attrs : list Attribute) (off : nat)
    (instance : option nat) (writeTag : bool) (cur cur' : Cursor) (w : World) :
  lastOffset cur <> None ->
  completion (elementBody ext self result template tagName attrs off instance writeTag cur w)
    = Done cur' ->
  lastOffset cur' <> None.
Proof.
  intros Hcur. unfold elementBody. intros H.
  apply bind_done in H. destruct H as ([cur1 n] & Hattrs & H & _ & _).
  assert (Hcur1 : lastOffset cur1 <> None).
  { apply (foldGen_invariant (fun acc => lastOffset (fst acc) <> None)
             (handleAttr ext result template tagName instance)
             (fun s x w0 s' => handleAttr_lastOffset tagName instance s s' x w0)
             attrs (cur, 0) w (cur1, n) Hcur Hattrs). }
  apply bind_done in H. destruct H as (cur2 & Hflush & H & _ & _).
  assert (Hcur2 : lastOffset cur2 <> None).
  { destruct (writeTag || (0 <? n)%nat).
    - apply bind_done in Hflush. destruct Hflush as ([chunk cur3] & Hf & Hy & _ & _).
      apply lift_done, flushTo_defined in Hf. done_inversion.
      rewrite Hf. discriminate.
    - done_inversion. exact Hcur1. }
  done_inversion. exact Hcur2.
Qed.

Lemma handleNode_lastOffset (cur cur' : Cursor) (node : Node) (w : World) :
  lastOffset cur <> None ->
  completion (handleNode ext self result template cur node w) = Done cur' ->
  lastOffset cur' <> None.
Proof.
  intros Hcur. destruct node as [cs|tag attrs off cs|data so eo|text]; simpl.
  - intros H. injection H as <-. exact Hcur.
  - intros H. apply bind_done in H. destruct H as ([instance writeTag] & _ & H & _ & _).
    eapply elementBody_lastOffset; eassumption.
  - destruct (bool_decide (data = marker (rnd ext))).
    + intros H.
      apply bind_done in H. destruct H as ([chunk cur1] & _ & H & _ & _).
      done_inversion.
      apply lift_done, skipTo_defined in Hm0. simpl. rewrite Hm0. discriminate.
    + intros H. injection H as <-. exact Hcur.
  - intros H. injection H as <-. exact Hcur.
Qed.

Lemma renderTopLevelNode_lastOffset (cur cur' : Cursor) (node : Node) (w : World) :
  lastOffset cur <> None ->
  completion (renderTopLevelNode ext self result template cur node w) = Done cur' ->
  lastOffset cur' <> None.
Proof.
  intros Hcur. unfold renderTopLevelNode. intros H.
  apply bind_done in H. destruct H as (u1 & _ & H & _ & _).
  apply bind_done in H. destruct H as (u2 & _ & H & _ & _).
  apply bind_done in H. destruct H as (cur1 & Hfold & H & _ & _).
  done_inversion.
  eapply (foldGen_invariant (fun c => lastOffset c <> None)); [|exact Hcur|exact Hfold].
  intros s x w0 s'. apply handleNode_lastOffset.
Qed.

Lemma renderChildNodes_lastOffset (nodes : list Node) (cur : Cursor) (w : World) :
  completion (renderChildNodes ext self result template nodes w) = Done cur ->
  lastOffset cur <> None.
Proof.
  unfold renderChildNodes.
  apply (foldGen_invariant (fun c => lastOffset c <> None)).
  - intros s x w0 s'. apply renderTopLevelNode_lastOffset.
  - discriminate.
Qed.

End Traversal.

(** ** The end of [renderTemplateResult] *)

Lemma finish_run (result : TemplateResult) (template : ParsedTemplate)
    (cur : Cursor) (last : nat) (w : World) :
  lastOffset cur = Some last ->
  finish result template cur w =
    mkRun [JS.substring (html template) (Some last) None] w
      (if bool_decide (partIndex cur = length (values result))
       then Done (partIndex cur)
       else Throw (FinalPartIndex (partIndex cur) (length (values result)))).
Proof.
  intros Hlast. unfold finish, flushTo, bind. rewrite Hlast. simpl.
  destruct (bool_decide (partIndex cur = length (values result))); reflexivity.
Qed.

Lemma renderTemplateResultWith_traversal (ext : Externals) (self : value -> Gen unit)
    (result : TemplateResult) (w : World) (t : ParsedTemplate) (nodes : list Node) :
  completion (getTemplate ext result w) = Done t ->
  getChildNodes (ast t) = Some nodes ->
  renderTemplateResultWith ext self result w =
    bind (renderChildNodes ext self result t nodes) (finish result t)
         (world (getTemplate ext result w)).
Proof.
  intros Ht Hnodes. unfold renderTemplateResultWith.
  rewrite (bind_of_done _ _ _ _ Ht).
  destruct (getTemplate_run ext result w) as (t' & Hrun & _).
  rewrite Hrun at 1. simpl. rewrite Hnodes.
  match goal with |- mkRun ?c ?w0 ?k = ?r => change (mkRun (chunks r) (world r) (completion r) = r) end.
  destruct (bind _ _ _). reflexivity.
Qed.

(** The guard before the traversal: were [ast.childNodes] undefined, the
    call would return at once, with no chunk, no flush and no check of the
    cursor.  The fragments of parse5 always carry a child list, so that no
    parsed template takes this way. *)
Lemma renderTemplateResultWith_no_child_list (ext : Externals) (self : value -> Gen unit)
    (result : TemplateResult) (w : World) (t : ParsedTemplate) :
  completion (getTemplate ext result w) = Done t ->
  getChildNodes (ast t) = None ->
  renderTemplateResultWith ext self result w =
    mkRun [] (world (getTemplate ext result w)) (Done 0).
Proof.
  intros Ht Hnone. unfold renderTemplateResultWith.
  rewrite (bind_of_done _ _ _ _ Ht).
  destruct (getTemplate_run ext result w) as (t' & Hrun & _).
  rewrite Hrun at 1. simpl. rewrite Hnone. reflexivity.
Qed.

(** C1: a run of [renderTemplateResult] that completes has consumed exactly
    [values.length] values, and a traversal that ends on any other count makes
    the run throw the final-[partIndex] error.  The fragment is one with a
    child list, as every fragment of parse5 is. *)
Theorem values_all_consumed (ext : Externals) (self : value -> Gen unit)
    (result : TemplateResult) (w : World) (t : ParsedTemplate) (nodes : list Node) :
  completion (getTemplate ext result w) = Done t ->
  getChildNodes (ast t) = Some nodes ->
  (forall n,
     completion (renderTemplateResultWith ext self result w) = Done n ->
     n = length (values result) /\
     exists cur,
       completion (renderChildNodes ext self result t nodes
                     (world (getTemplate ext result w))) = Done cur /\
       partIndex cur = n) /\
  (forall cur,
     completion (renderChildNodes ext self result t nodes
                   (world (getTemplate ext result w))) = Done cur ->
     completion (renderTemplateResultWith ext self result w) =
       if bool_decide (partIndex cur = length (values result))
       then Done (length (values result))
       else Throw (FinalPartIndex (partIndex cur) (length (values result)))).
Proof.
  intros Ht Hnodes.
  rewrite (renderTemplateResultWith_traversal ext self result w t nodes Ht Hnodes).
  set (w1 := world (getTemplate ext result w)).
  assert (Hend : forall cur,
            completion (renderChildNodes ext self result t nodes w1) = Done cur ->
            completion (bind (renderChildNodes ext self result t nodes) (finish result t) w1) =
              if bool_decide (partIndex cur = length (values result))
              then Done (length (values result))
              else Throw (FinalPartIndex (partIndex cur) (length (values result)))).
  { intros cur Hcur.
    rewrite (bind_of_done _ _ _ _ Hcur). simpl.
    destruct (lastOffset cur) as [last|] eqn:Hlast.
    - rewrite (finish_run result t cur last _ Hlast). simpl.
      destruct (bool_decide_reflect (partIndex cur = length (values result))) as [->|];
        reflexivity.
    - exfalso. apply (renderChildNodes_lastOffset ext self result t nodes cur w1 Hcur).
      exact Hlast. }
  split; [|exact Hend].
  intros n Hdone.
  destruct (bind_done _ _ _ _ Hdone) as (cur & Hcur & _).
  rewrite (Hend cur Hcur) in Hdone.
  destruct (bool_decide_reflect (partIndex cur = length (values result))) as [Heq|];
    [|discriminate].
  injection Hdone as <-. split; [reflexivity|]. exists cur. auto.
Qed.

Lemma values_all_consumed_witness :
  completion (renderTemplateResult Example.ext 2 (Example.hello [VStr "World"])
                Example.emptyWorld) = Done 1 /\
  completion (renderTemplateResult Example.ext 2 (Example.hello [])
                Example.emptyWorld) = Throw (FinalPartIndex 1 0).
Proof.
  split.
  - destruct (values_all_consumed Example.ext (renderValue Example.ext 2)
                (Example.hello [VStr "World"]) Example.emptyWorld
                {| html := Example.helloHtml; ast := Example.helloAst; parts := [NodePart 2] |}
                [Element "p" [] 3 [TextNode "Hello, "; CommentNode "{{lit-123}}" 10 28;
                                   TextNode "!"]]
                eq_refl eq_refl) as [_ Hend].
    apply (Hend {| partIndex := 1; templatePartIndex := 0; lastOffset := Some 28 |}).
    vm_compute. reflexivity.
  - vm_compute. reflexivity.
Defined.

(** A template of text only, given one value: the text is flushed and the
    run throws, none of the values having been consumed. *)
Example text_only_template_checked :
  renderTemplateResult Example.ext 2 (Example.bare [VStr "x"]) Example.emptyWorld =
    mkRun ["bare"]
          (world (getTemplate Example.ext (Example.bare [VStr "x"]) Example.emptyWorld))
          (Throw (FinalPartIndex 0 1)).
Proof. vm_compute. reflexivity. Qed.

(** C6: when the traversal of the fragment completes, the chunk that follows
    is the rest of the HTML, every character from [lastOffset] to the end,
    whatever the shape of the template and whatever the outcome of the check
    after it.  The fragment is one with a child list, as every fragment of
    parse5 is. *)
Theorem tail_flushed (ext : Externals) (self : value -> Gen unit)
    (result : TemplateResult) (w : World) (t : ParsedTemplate) (nodes : list Node)
    (cur : Cursor) :
  completion (getTemplate ext result w) = Done t ->
  getChildNodes (ast t) = Some nodes ->
  completion (renderChildNodes ext self result t nodes
                (world (getTemplate ext result w))) = Done cur ->
  exists last,
    lastOffset cur = Some last /\
    chunks (renderTemplateResultWith ext self result w) =
      chunks (renderChildNodes ext self result t nodes (world (getTemplate ext result w)))
      ++ [JS.substring (html t) (Some last) None] /\
    forall p,
      String.get p (JS.substring (html t) (Some last) None) = String.get (last + p) (html t).
Proof.
  intros Ht Hnodes Hcur.
  destruct (lastOffset cur) as [last|] eqn:Hlast.
  - exists last. split; [reflexivity|]. split; [|intros p; apply substring_to_end].
    rewrite (renderTemplateResultWith_traversal ext self result w t nodes Ht Hnodes).
    rewrite (bind_of_done _ _ _ _ Hcur). simpl.
    rewrite (finish_run result t cur last _ Hlast). reflexivity.
  - exfalso. apply (renderChildNodes_lastOffset ext self result t nodes cur _ Hcur).
    exact Hlast.
Qed.

Lemma tail_flushed_witness :
  exists last,
    Some 28 = Some last /\
    chunks (renderTemplateResult Example.ext 2 (Example.hello [VStr "World"])
              Example.emptyWorld) =
      ["<p>Hello, "; "<!--lit-part-->"; "World"; "<!--/lit-part-->"]
      ++ [JS.substring Example.helloHtml (Some last) None] /\
    forall p,
      String.get p (JS.substring Example.helloHtml (Some last) None) =
      String.get (last + p) Example.helloHtml.
Proof.
  apply (tail_flushed Example.ext (renderValue Example.ext 2)
           (Example.hello [VStr "World"]) Example.emptyWorld
           {| html := Example.helloHtml; ast := Example.helloAst; parts := [NodePart 2] |}
           [Element "p" [] 3 [TextNode "Hello, "; CommentNode "{{lit-123}}" 10 28;
                              TextNode "!"]]
           {| partIndex := 1; templatePartIndex := 0; lastOffset := Some 28 |}
           eq_refl eq_refl).
  vm_compute. reflexivity.
Defined.

(** A template of text only: no node yields anything, and the last flush
    emits the whole HTML. *)
Example text_only_template_flushed :
  renderTemplateResult Example.ext 2 (Example.bare []) Example.emptyWorld =
    mkRun ["bare"]
          (world (getTemplate Example.ext (Example.bare []) Example.emptyWorld)) (Done 0).
Proof. vm_compute. reflexivity. Qed.

(** ** Splitting an attribute value on the marker pattern *)

Lemma string_app_nil_r (s : string) : s +:+ "" = s.
Proof.
  induction s as [|c s IH]; [reflexivity|].
  change (String c (s +:+ "") = String c s). f_equal. exact IH.
Qed.

Lemma string_app_assoc (s1 s2 s3 : string) : (s1 +:+ s2) +:+ s3 = s1 +:+ (s2 +:+ s3).
Proof.
  induction s1 as [|c s1 IH]; [reflexivity|].
  change (String c ((s1 +:+ s2) +:+ s3) = String c (s1 +:+ (s2 +:+ s3))). f_equal. exact IH.
Qed.

Lemma prefix_refl (s : string) : String.prefix s s = true.
Proof.
  induction s as [|c s IH]; simpl; [reflexivity|].
  destruct (ascii_dec c c); [exact IH|congruence].
Qed.

Lemma prefix_length (p s : string) :
  String.prefix p s = true -> String.length p <= String.length s.
Proof.
  revert s. induction p as [|c p IH]; intros s H; simpl; [lia|].
  destruct s as [|d s]; simpl in H; [discriminate|].
  destruct (ascii_dec c d); [|discriminate].
  simpl. apply IH in H. lia.
Qed.

Lemma prefix_same_length (p s : string) :
  String.prefix p s = true -> String.length s = String.length p -> s = p.
Proof.
  revert s. induction p as [|c p IH]; intros s H Hlen.
  - destruct s; [reflexivity|discriminate].
  - destruct s as [|d s]; simpl in H; [discriminate|].
    destruct (ascii_dec c d) as [->|]; [|discriminate].
    f_equal. apply IH; [exact H|]. simpl in Hlen. lia.
Qed.

Section Split.

Variable rnd : string.

Lemma splitFrom_skip_all (cur s : string) :
  splitFrom rnd (String.length s) cur s = [cur].
Proof. induction s as [|c s IH]; simpl; [reflexivity|exact IH]. Qed.

(** The first fragment starts with the text read before. *)
Lemma splitFrom_head (s : string) :
  forall skip cur, exists rest tl, splitFrom rnd skip cur s = (cur +:+ rest) :: tl.
Proof.
  induction s as [|c s IH]; intros skip cur.
  - exists "", []. simpl. rewrite string_app_nil_r. reflexivity.
  - destruct skip as [|k].
    + simpl. destruct (markerAt rnd (String c s)) as [k|].
      * exists "". eexists. rewrite string_app_nil_r. reflexivity.
      * destruct (IH 0 (cur +:+ String c "")) as (rest & tl & Heq).
        exists (String c rest), tl. rewrite Heq.
        rewrite string_app_assoc. reflexivity.
    + simpl. apply IH.
Qed.

Lemma splitFrom_single (s : string) :
  forall skip, skip <= String.length s ->
  splitFrom rnd skip "" s = [""] -> skip = String.length s.
Proof.
  induction s as [|c s IH]; intros skip Hle Hsplit; simpl in *.
  - lia.
  - destruct skip as [|k].
    + exfalso. destruct (markerAt rnd (String c s)) as [k|].
      * destruct (splitFrom_head s k "") as (rest & tl & Heq).
        rewrite Heq in Hsplit. discriminate.
      * destruct (splitFrom_head s 0 ("" +:+ String c "")) as (rest & tl & Heq).
        rewrite Heq in Hsplit. cbv [String.append] in Hsplit. discriminate.
    + f_equal. apply IH; [lia|exact Hsplit].
Qed.

Lemma split_of_match (p s : string) (c : ascii) :
  1 <= String.length p ->
  String.prefix p (String c s) = true ->
  "" :: splitFrom rnd (String.length p - 1) "" s = [""; ""] ->
  String c s = p.
Proof.
  intros Hp Hprefix Hsplit.
  apply prefix_same_length; [exact Hprefix|].
  pose proof (prefix_length _ _ Hprefix) as Hlen. simpl in Hlen.
  injection Hsplit as Hsplit.
  apply splitFrom_single in Hsplit; [|lia].
  simpl. lia.
Qed.

(** The fragments are two empty strings exactly when the value is one match
    of the marker pattern and nothing else. *)
Lemma split_whole (s : string) :
  split rnd s = [""; ""] <-> s = marker rnd \/ s = nodeMarker rnd.
Proof.
  split.
  - unfold split. destruct s as [|c s]; [discriminate|].
    simpl. unfold markerAt.
    destruct (String.prefix (marker rnd) (String c s)) eqn:Hm.
    { intros H. left. eapply split_of_match; [|eassumption..]. simpl. lia. }
    destruct (String.prefix (nodeMarker rnd) (String c s)) eqn:Hn.
    { intros H. right. eapply split_of_match; [|eassumption..]. simpl. lia. }
    intros H. destruct (splitFrom_head s 0 ("" +:+ String c "")) as (rest & tl & Heq).
    rewrite Heq in H. cbv [String.append] in H. discriminate.
  - intros [->| ->].
    + unfold split. pose proof (prefix_refl (marker rnd)) as Hp.
      unfold marker in *. simpl in *. unfold markerAt, marker. simpl.
      rewrite Hp. simpl.
      rewrite splitFrom_skip_all. reflexivity.
    + unfold split. pose proof (prefix_refl (nodeMarker rnd)) as Hp.
      unfold nodeMarker, marker in *. simpl in *. unfold markerAt, nodeMarker, marker. simpl.
      rewrite Hp. simpl.
      rewrite splitFrom_skip_all. reflexivity.
Qed.

End Split.

(** ** Boolean attribute bindings *)

Lemma prefix_char (a c : ascii) (s : string) :
  String.prefix (String a "") (String c s) = if ascii_dec a c then true else false.
Proof.
  change (String.prefix (String a "") (String c s))
    with (match ascii_dec a c with left _ => String.prefix "" s | right _ => false end).
  destruct (ascii_dec a c); [|reflexivity]. destruct s; reflexivity.
Qed.

Lemma startsWith_question (name : string) :
  JS.startsWith name "?" = true ->
  JS.startsWith name "." = false /\ JS.startsWith name "@" = false.
Proof.
  unfold JS.startsWith. destruct name as [|c name]; [discriminate|].
  rewrite !prefix_char.
  destruct (ascii_dec "?"%char c) as [<-|]; [|discriminate].
  intros _. split; reflexivity.
Qed.

Lemma skipTo_not_boolean (offset : nat) (cur : Cursor) :
  skipTo offset cur <> inl BooleanAttributeError.
Proof.
  unfold skipTo. destruct (lastOffset cur) as [last|]; [|discriminate].
  destruct (offset <? last)%nat; discriminate.
Qed.

(** C5: for a bound attribute whose name in the template starts with [?],
    the boolean-attribute error is thrown exactly when the raw attribute
    value is not one match of the marker pattern with nothing around it, and
    then right after the text before the attribute.  Otherwise one value is
    consumed, the attribute name without its sigil is the only chunk after
    that text when the value is truthy, and no chunk follows it when it is
    not. *)
Theorem boolean_attribute_binding (ext : Externals) (result : TemplateResult)
    (template : ParsedTemplate) (tagName : string) (instance : option nat)
    (cur : Cursor) (n : nat) (attr : Attribute) (name : string) (w : World) :
  JS.endsWith (attr_name attr) "$lit$" = true ->
  lastAttributeName ext (default "undefined" (raw (strings result) !! partIndex cur))
    = Some name ->
  JS.startsWith name "?" = true ->
  let run := handleAttr ext result template tagName instance (cur, n) attr w in
  let whole := attr_value attr = marker (rnd ext) \/ attr_value attr = nodeMarker (rnd ext) in
  let v := default VUndefined (values result !! partIndex cur) in
  let before := JS.substring (html template) (lastOffset cur) (Some (attr_startOffset attr)) in
  let bare := JS.tail (JS.dropSuffix (attr_name attr) (String.length boundAttributeSuffix)) in
  (completion run = Throw BooleanAttributeError <-> ~ whole) /\
  (~ whole -> run = mkRun [before] w (Throw BooleanAttributeError)) /\
  (whole ->
     chunks run = before :: (if truthy v then [bare] else []) /\
     world run = w /\
     completion run =
       match skipTo (attr_endOffset attr) (setPartIndex (partIndex cur + 1) cur) with
       | inl e => Throw e
       | inr cur' => Done (nextTemplatePart cur', n + 1)
       end /\
     forall cur' n', completion run = Done (cur', n') ->
       partIndex cur' = partIndex cur + 1).
Proof.
  intros Hbound Hname Hsigil run whole v before bare.
  destruct (startsWith_question name Hsigil) as [Hdot Hat].
  assert (Hthrow : ~ whole -> run = mkRun [before] w (Throw BooleanAttributeError)).
  { intros Hnot. unfold run, handleAttr. rewrite Hbound, Hname.
    unfold handleBinding. rewrite Hdot, Hat, Hsigil.
    rewrite bool_decide_eq_false_2; [reflexivity|].
    intros Hsplit. apply Hnot, split_whole. exact Hsplit. }
  assert (Hok : whole ->
     chunks run = before :: (if truthy v then [bare] else []) /\
     world run = w /\
     completion run =
       match skipTo (attr_endOffset attr) (setPartIndex (partIndex cur + 1) cur) with
       | inl e => Throw e
       | inr cur' => Done (nextTemplatePart cur', n + 1)
       end).
  { intros Hwhole. unfold run, handleAttr. rewrite Hbound, Hname.
    unfold handleBinding. rewrite Hdot, Hat, Hsigil.
    rewrite bool_decide_eq_true_2 by (apply split_whole; exact Hwhole).
    fold v. fold bare. fold before.
    destruct (skipTo (attr_endOffset attr) (setPartIndex (partIndex cur + 1) cur))
      as [e|cur'] eqn:Hskip;
      destruct (truthy v); unfold bind; simpl; rewrite Hskip; simpl; auto. }
  split; [|split].
  - split.
    + intros Hrun Hwhole. destruct (Hok Hwhole) as (_ & _ & Hcompletion).
      rewrite Hcompletion in Hrun.
      destruct (skipTo (attr_endOffset attr) (setPartIndex (partIndex cur + 1) cur))
        as [e|cur'] eqn:Hskip; [|discriminate].
      injection Hrun as ->. exact (skipTo_not_boolean _ _ Hskip).
    + intros Hnot. rewrite (Hthrow Hnot). reflexivity.
  - exact Hthrow.
  - intros Hwhole. destruct (Hok Hwhole) as (Hchunks & Hworld & Hcompletion).
    split; [exact Hchunks|]. split; [exact Hworld|]. split; [exact Hcompletion|].
    intros cur' n' Hdone. rewrite Hcompletion in Hdone.
    destruct (skipTo (attr_endOffset attr) (setPartIndex (partIndex cur + 1) cur))
      as [e|cur1] eqn:Hskip; [discriminate|].
    injection Hdone as <- _.
    unfold skipTo in Hskip. simpl in Hskip.
    destruct (lastOffset cur) as [last|]; [|discriminate].
    destruct (attr_endOffset attr <? last)%nat; [discriminate|].
    injection Hskip as <-. reflexivity.
Qed.

Lemma boolean_attribute_binding_witness :
  let template := parseTemplate Example.ext (Example.input [VBool true]) in
  chunks (handleAttr Example.ext (Example.input [VBool true]) template "input" None
            (initialCursor, 0) Example.disabledAttr Example.emptyWorld) =
    ["<input "; "disabled"] /\
  completion (handleAttr Example.ext (Example.input [VBool true]) template "input" None
                (initialCursor, 0) Example.disabledAttr Example.emptyWorld) =
    Done ({| partIndex := 1; templatePartIndex := 0; lastOffset := Some 33 |}, 1).
Proof.
  intros template.
  destruct (boolean_attribute_binding Example.ext (Example.input [VBool true]) template
              "input" None initialCursor 0 Example.disabledAttr "?disabled"
              Example.emptyWorld eq_refl eq_refl eq_refl) as (_ & _ & Hok).
  destruct (Hok (or_introl eq_refl)) as (Hchunks & _ & Hcompletion & _).
  split; [exact Hchunks|exact Hcompletion].
Defined.

(** [?disabled="a${x}"] never renders: the text before the attribute is the
    only chunk, then the error. *)
Example boolean_attribute_with_text :
  handleAttr Example.ext (Example.input [VBool true])
    (parseTemplate Example.ext (Example.input [VBool true])) "input" None
    (initialCursor, 0)
    {| attr_name := "?disabled$lit$"; attr_value := "a{{lit-123}}";
       attr_startOffset := 7; attr_endOffset := 34 |}
    Example.emptyWorld =
  mkRun ["<input "] Example.emptyWorld (Throw BooleanAttributeError).
Proof. vm_compute. reflexivity. Qed.

(** ** Elements whose constructor throws *)

Ltac pure_run :=
  eexists; eexists;
  (split; [intros ?w; unfold bind; simpl; reflexivity
          |split; [|intros ?x]; discriminate]).

Section NoInstance.

Variable ext : Externals.
Variable result : TemplateResult.
Variable template : ParsedTemplate.

(** Without an instance the handling of a binding neither reads nor writes
    the shared state, and what it can throw is an error of the renderer. *)
Lemma handleBinding_no_instance (tagName : string) (attr : Attribute)
    (name attributeName : string) (statics : list string) (cur : Cursor) :
  exists out comp,
    (forall w, handleBinding ext result tagName None attr name attributeName statics cur w
               = mkRun out w comp) /\
    comp <> Exhausted /\ forall x, comp <> Throw (Thrown x).
Proof.
  unfold handleBinding.
  destruct (JS.startsWith name ".").
  { destruct (bool_decide (length statics = 2));
      destruct (reflectedAttributeName ext tagName (JS.tail name));
      pure_run. }
  destruct (JS.startsWith name "@").
  { pure_run. }
  destruct (JS.startsWith name "?").
  { destruct (bool_decide (statics = [""; ""]));
      [destruct (truthy (default VUndefined (values result !! partIndex cur)))|];
      pure_run. }
  pure_run.
Qed.

Lemma handleAttr_no_instance (tagName : string) (acc : Cursor * nat) (attr : Attribute) :
  exists out comp,
    (forall w, handleAttr ext result template tagName None acc attr w = mkRun out w comp) /\
    comp <> Exhausted /\ forall x, comp <> Throw (Thrown x).
Proof.
  destruct acc as [cur n]. unfold handleAttr.
  destruct (JS.endsWith (attr_name attr) "$lit$").
  - destruct (lastAttributeName ext _) as [name|].
    + match goal with
      | |- context [handleBinding ext result tagName None attr name ?an ?st cur] =>
          destruct (handleBinding_no_instance tagName attr name an st cur)
            as (out1 & comp1 & Hrun1 & Hne1 & Hown1)
      end.
      destruct comp1 as [cur1|e1|].
      * destruct (skipTo (attr_endOffset attr) cur1) as [e2|cur2] eqn:Hskip.
        -- exists (JS.substring (html template) (lastOffset cur) (Some (attr_startOffset attr))
                     :: out1 ++ []), (Throw e2).
           split.
           ++ intros w. unfold bind. simpl. rewrite Hrun1. simpl. rewrite Hskip. reflexivity.
           ++ split; [discriminate|]. intros x Hx. injection Hx as ->.
              unfold skipTo in Hskip. destruct (lastOffset cur1); [|discriminate].
              destruct (_ <? _)%nat; discriminate.
        -- exists (JS.substring (html template) (lastOffset cur) (Some (attr_startOffset attr))
                     :: out1 ++ [] ++ []), (Done (nextTemplatePart cur2, n + 1)).
           split.
           ++ intros w. unfold bind. simpl. rewrite Hrun1. simpl. rewrite Hskip. reflexivity.
           ++ split; [|intros x]; discriminate.
      * exists (JS.substring (html template) (lastOffset cur) (Some (attr_startOffset attr))
                  :: out1), (Throw e1).
        split.
        -- intros w. unfold bind. simpl. rewrite Hrun1. reflexivity.
        -- split; [discriminate|].
           intros x Hx. injection Hx as ->. exact (Hown1 x eq_refl).
      * congruence.
    + pure_run.
  - pure_run.
Qed.

Lemma foldGen_no_instance (tagName : string) (attrs : list Attribute) :
  forall acc, exists out comp,
    (forall w, foldGen (handleAttr ext result template tagName None) attrs acc w
               = mkRun out w comp) /\
    comp <> Exhausted /\ forall x, comp <> Throw (Thrown x).
Proof.
  induction attrs as [|attr attrs IH]; intros acc.
  - pure_run.
  - destruct (handleAttr_no_instance tagName acc attr) as (out1 & comp1 & Hrun1 & Hne1 & Hown1).
    destruct comp1 as [acc1|e1|].
    + destruct (IH acc1) as (out2 & comp2 & Hrun2 & Hown2).
      exists (out1 ++ out2), comp2. split; [|exact Hown2].
      intros w. simpl. unfold bind. rewrite Hrun1. simpl. rewrite Hrun2. reflexivity.
    + exists out1, (Throw e1). split; [|split; [discriminate|exact Hown1]].
      intros w. simpl. unfold bind. rewrite Hrun1. reflexivity.
    + congruence.
Qed.

End NoInstance.

Lemma elementBody_no_instance (ext : Externals) (result : TemplateResult)
    (template : ParsedTemplate) (tagName : string) (attrs : list Attribute) (off : nat)
    (writeTag : bool) (cur : Cursor) :
  exists out comp,
    (forall self w,
       elementBody ext self result template tagName attrs off None writeTag cur w
       = mkRun out w comp) /\
    comp <> Exhausted /\ forall x, comp <> Throw (Thrown x).
Proof.
  destruct (foldGen_no_instance ext result template tagName attrs (cur, 0))
    as (out1 & comp1 & Hrun1 & Hne1 & Hown1).
  destruct comp1 as [[cur1 n]|e1|]; [| |congruence].
  - assert (Hflushed : forall e2, flushTo (html template) (Some off) cur1 = inl e2 ->
              forall x, e2 <> Thrown x).
    { intros e2 Hf x ->. unfold flushTo in Hf. destruct (lastOffset cur1); discriminate. }
    destruct (0 <? n)%nat eqn:Hn; destruct writeTag;
      try (destruct (flushTo (html template) (Some off) cur1) as [e2|[chunk cur2]] eqn:Hf;
           [|try destruct (templatePartAt template (templatePartIndex cur2)) eqn:Hpart]);
      eexists; eexists;
      (split;
       [intros self w; unfold elementBody, bind; rewrite Hrun1; simpl;
        rewrite ?Hn; simpl; rewrite ?Hf; simpl; rewrite ?Hn, ?Hpart; simpl;
        rewrite ?app_nil_r; reflexivity
       |split; [discriminate|];
        intros x Hx; try discriminate Hx;
        injection Hx as Hx; exact (Hflushed _ eq_refl x Hx)]).
  - exists out1, (Throw e1). split.
    + intros self w. unfold elementBody, bind. rewrite Hrun1. reflexivity.
    + split; [discriminate|].
      intros x Hx. injection Hx as ->. exact (Hown1 x eq_refl).
Qed.

(** An element that is not custom, for want of a hyphen in its name or of a
    registered constructor, is handled by the element body without an
    instance and with [writeTag] unset. *)
Lemma handleNode_not_custom (ext : Externals) (self : value -> Gen unit)
    (result : TemplateResult) (template : ParsedTemplate) (cur : Cursor)
    (tagName : string) (attrs : list Attribute) (off : nat) (kids : list Node) (w : World) :
  JS.includesChar "-"%char tagName = false \/ customElements ext tagName = None ->
  handleNode ext self result template cur (Element tagName attrs off kids) w =
  elementBody ext self result template tagName attrs off None false cur w.
Proof.
  intros Hplain.
  assert (Hpair : instantiate ext tagName = ret (None, false)).
  { unfold instantiate. destruct Hplain as [-> | ->]; [reflexivity|].
    destruct (JS.includesChar "-"%char tagName); reflexivity. }
  unfold handleNode.
  rewrite Hpair. unfold bind at 1. simpl.
  match goal with |- mkRun ?c ?w0 ?k = ?r =>
    change (mkRun (chunks r) (world r) (completion r) = r) end.
  destruct (elementBody _ _ _ _ _ _ _ _ _ _ _). reflexivity.
Qed.

(** Without an instance, writing the start tag changes the run only for an
    element without bound attributes: there the start tag is flushed at once
    instead of with the text that follows. *)
Lemma elementBody_start_tag (ext : Externals) (self : value -> Gen unit)
    (result : TemplateResult) (template : ParsedTemplate) (tagName : string)
    (attrs : list Attribute) (off : nat) (cur : Cursor) (w : World) :
  elementBody ext self result template tagName attrs off None true cur w =
    elementBody ext self result template tagName attrs off None false cur w \/
  exists cur1,
    completion (elementBody ext self result template tagName attrs off None false cur w)
      = Done cur1 /\
    elementBody ext self result template tagName attrs off None true cur w =
      match flushTo (html template) (Some off) cur1 with
      | inl e =>
          mkRun (chunks (elementBody ext self result template tagName attrs off None false cur w))
                w (Throw e)
      | inr (chunk, cur2) =>
          mkRun (chunks (elementBody ext self result template tagName attrs off None false cur w)
                 ++ [chunk]) w (Done cur2)
      end.
Proof.
  destruct (foldGen_no_instance ext result template tagName attrs (cur, 0))
    as (out1 & comp1 & Hrun1 & _).
  unfold elementBody, bind. rewrite Hrun1.
  destruct comp1 as [[cur1 n]|e1|]; simpl; [|left; reflexivity..].
  destruct (0 <? n)%nat eqn:Hn; [left; reflexivity|].
  right. exists cur1. split; [reflexivity|].
  destruct (flushTo (html template) (Some off) cur1) as [e2|[chunk cur2]]; simpl.
  - rewrite !app_nil_r. reflexivity.
  - rewrite !app_nil_r. reflexivity.
Qed.

(** C7: when the constructor of a registered element throws, the exception
    is caught and logged, and the element is rendered by the non-custom path
    with its start tag written: the run of [handleNode] is the run of the
    element body without an instance, from the state in which the exception
    was logged: the console after the run is the console before it with the
    exception appended.  It is the same run whatever renders nested values, it
    leaves the frame stack, the element objects and the template cache as they
    were, and it never ends with an exception of collaborator code: it throws
    only what the handling of the attributes throws.  Against the run of an
    element that is not custom it differs at most by the flush of the start
    tag. *)
Theorem constructor_failure_contained (ext : Externals) (result : TemplateResult)
    (template : ParsedTemplate) (cur : Cursor) (tagName : string) (attrs : list Attribute)
    (off : nat) (kids : list Node) (ctor : ElementClass) (e : string) :
  JS.includesChar "-"%char tagName = true ->
  customElements ext tagName = Some ctor ->
  ctorThrows ctor = Some e ->
  exists out comp,
    (forall self w,
       handleNode ext self result template cur (Element tagName attrs off kids) w =
         mkRun out (setConsole (console w ++ [CtorException (Thrown e)]) w) comp /\
       elementBody ext self result template tagName attrs off None true cur w =
         mkRun out w comp /\
       (mkRun out w comp =
          elementBody ext self result template tagName attrs off None false cur w \/
        exists cur1,
          completion (elementBody ext self result template tagName attrs off None false cur w)
            = Done cur1 /\
          mkRun out w comp =
            match flushTo (html template) (Some off) cur1 with
            | inl e' =>
                mkRun (chunks (elementBody ext self result template tagName attrs off
                                 None false cur w)) w (Throw e')
            | inr (chunk, cur2) =>
                mkRun (chunks (elementBody ext self result template tagName attrs off
                                 None false cur w) ++ [chunk]) w (Done cur2)
            end) /\
       console (world (handleNode ext self result template cur
                         (Element tagName attrs off kids) w))
         = console w ++ [CtorException (Thrown e)] /\
       heap (world (handleNode ext self result template cur
                      (Element tagName attrs off kids) w)) = heap w /\
       instances (world (handleNode ext self result template cur
                           (Element tagName attrs off kids) w)) = instances w /\
       templateCache (world (handleNode ext self result template cur
                               (Element tagName attrs off kids) w)) = templateCache w) /\
    comp <> Exhausted /\ forall x, comp <> Throw (Thrown x).
Proof.
  intros Hdash Hctor Hthrows.
  destruct (elementBody_no_instance ext result template tagName attrs off true cur)
    as (out & comp & Hrun & Hown).
  exists out, comp. split; [|exact Hown].
  intros self w.
  assert (Hnode : handleNode ext self result template cur (Element tagName attrs off kids) w =
                  mkRun out (setConsole (console w ++ [CtorException (Thrown e)]) w) comp).
  { simpl. unfold instantiate. rewrite Hdash, Hctor, Hthrows.
    unfold bind. simpl. rewrite Hrun. reflexivity. }
  split; [exact Hnode|]. split; [apply Hrun|]. split.
  - rewrite <- (Hrun self w). apply elementBody_start_tag.
  - rewrite Hnode. repeat split.
Qed.

Lemma constructor_failure_contained_witness :
  handleNode Example.ext (renderValue Example.ext 1) Example.bad
    (parseTemplate Example.ext Example.bad) initialCursor (Element "x-bad" [] 7 [])
    Example.emptyWorld =
  mkRun ["<x-bad>"]
    (setConsole [CtorException (Thrown "boom")] Example.emptyWorld)
    (Done {| partIndex := 0; templatePartIndex := (-1)%Z; lastOffset := Some 7 |}) /\
  console (world (handleNode Example.ext (renderValue Example.ext 1) Example.bad
                    (parseTemplate Example.ext Example.bad) initialCursor
                    (Element "x-bad" [] 7 []) Example.emptyWorld))
    = console Example.emptyWorld ++ [CtorException (Thrown "boom")].
Proof.
  destruct (constructor_failure_contained Example.ext Example.bad
              (parseTemplate Example.ext Example.bad) initialCursor "x-bad" [] 7 []
              Example.xbad "boom" eq_refl eq_refl eq_refl) as (out & comp & Hrun & _).
  destruct (Hrun (renderValue Example.ext 1) Example.emptyWorld)
    as (Hnode & Hbody & _ & Hconsole & _).
  vm_compute in Hbody. injection Hbody as <- <-.
  split; [exact Hnode|exact Hconsole].
Defined.

(** ** The frame stack *)

Lemma Node_induction (P : Node -> Prop) :
  (forall cs, (forall l, cs = Some l -> Forall P l) -> P (DocumentFragment cs)) ->
  (forall tagName attrs off cs, Forall P cs -> P (Element tagName attrs off cs)) ->
  (forall data so eo, P (CommentNode data so eo)) ->
  (forall text, P (TextNode text)) ->
  forall node, P node.
Proof.
  intros Hfragment Helement Hcomment Htext.
  fix IH 1. intros [cs|tagName attrs off cs|data so eo|text].
  - apply Hfragment. destruct cs as [l|]; intros l' Heq; [|discriminate].
    injection Heq as <-. induction l as [|c l IHl]; constructor; [apply IH|exact IHl].
  - apply Helement. induction cs as [|c cs IHcs]; constructor; [apply IH|exact IHcs].
  - apply Hcomment.
  - apply Htext.
Qed.

Lemma popFrame_pushFrame (tagName : string) (w : World) :
  popFrame (pushFrame tagName w) = w.
Proof.
  destruct w as [cache frames objects log]. unfold popFrame, pushFrame, setInstances. simpl.
  rewrite removelast_last. reflexivity.
Qed.

(** The walk of [traverse] with the callbacks of the renderer pushes and pops
    a frame per element before any node is handled: it leaves the shared
    state as it found it. *)
Lemma traverse_balanced (node : Node) :
  forall w, traverse pre post node w = w.
Proof.
  induction node as [cs IH|tagName attrs off cs IH|data so eo|text] using Node_induction;
    intros w; simpl.
  - destruct cs as [l|]; [|reflexivity].
    specialize (IH l eq_refl). unfold post. simpl.
    revert w. induction IH as [|c l Hc _ IHl]; intros w; [reflexivity|].
    rewrite Hc. apply IHl.
  - unfold post. simpl.
    assert (Hkids : forall w0,
              (fix each (cs0 : list Node) (w1 : World) {struct cs0} : World :=
                 match cs0 with
                 | [] => w1
                 | c :: cs' => each cs' (traverse pre post c w1)
                 end) cs w0 = w0).
    { induction IH as [|c l Hc _ IHl]; intros w0; [reflexivity|].
      rewrite Hc. apply IHl. }
    rewrite Hkids. apply popFrame_pushFrame.
  - reflexivity.
  - reflexivity.
Qed.

(** Hence the nodes below a top-level element are all handled under the one
    frame of that element: no frame is pushed for a nested element. *)
Lemma renderTopLevelNode_frames (ext : Externals) (self : value -> Gen unit)
    (result : TemplateResult) (template : ParsedTemplate) (cur : Cursor) (node : Node)
    (w : World) :
  renderTopLevelNode ext self result template cur node w =
  bind (foldGen (handleNode ext self result template) (depthFirst node) cur)
       (fun cur' => bind (if isElement node then modify popFrame else ret tt)
                         (fun _ => ret cur'))
       (match node with Element tagName _ _ _ => pushFrame tagName w | _ => w end).
Proof.
  assert (Hwalk : forall w0, modify (traverse pre post node) w0 = ret tt w0).
  { intros w0. unfold modify, ret. rewrite traverse_balanced. reflexivity. }
  unfold renderTopLevelNode.
  destruct node as [cs|tagName attrs off cs|data so eo|text];
    unfold bind at 1 2; rewrite !Hwalk; simpl;
    match goal with |- mkRun ?c ?w0 ?k = ?r =>
      change (mkRun (chunks r) (world r) (completion r) = r) end;
    destruct (bind _ _ _); reflexivity.
Qed.

(** A newly constructed instance goes into the frame on top of the stack,
    whichever element that frame belongs to. *)
Lemma instantiate_stores_in_top_frame (ext : Externals) (tagName : string)
    (ctor : ElementClass) (below : list Frame) (top : Frame) (w : World) :
  JS.includesChar "-"%char tagName = true ->
  customElements ext tagName = Some ctor ->
  ctorThrows ctor = None ->
  instances w = below ++ [top] ->
  instantiate ext tagName w =
    mkRun []
      (setInstances
         (below ++ [{| frame_tagName := frame_tagName top;
                       frame_instance := Some (length (heap w)) |}])
         (setHeap (heap w ++ [{| classOf := ctor; props := ∅ |}]) w))
      (Done (Some (length (heap w)), true)).
Proof.
  intros Hdash Hctor Hreturns Hstack.
  unfold instantiate. rewrite Hdash, Hctor, Hreturns.
  unfold bind, allocate, getWorld, storeInstance. simpl.
  rewrite Hstack, last_snoc. simpl.
  replace (length (below ++ [top]) - 1) with (length below + 0)
    by (rewrite length_app; simpl; lia).
  rewrite alter_app_r. reflexivity.
Qed.

(** C4, as the code has it: every top-level element of a template, custom
    or not, is handled with a frame of its own on top of the stack, pushed
    before and popped after its subtree; the element itself is handled first,
    and when it is custom and its constructor returns, the new instance is
    stored into that frame, the topmost one. *)
Theorem top_level_element_frame (ext : Externals) (self : value -> Gen unit)
    (result : TemplateResult) (template : ParsedTemplate) (cur : Cursor)
    (tagName : string) (attrs : list Attribute) (off : nat) (kids : list Node) (w : World) :
  let node := Element tagName attrs off kids in
  instances (pushFrame tagName w) =
    instances w ++ [{| frame_tagName := tagName; frame_instance := None |}] /\
  renderTopLevelNode ext self result template cur node w =
    bind (bind (handleNode ext self result template cur node)
               (foldGen (handleNode ext self result template) (tl (depthFirst node))))
         (fun cur' => modify popFrame ;; ret cur')
         (pushFrame tagName w) /\
  (forall ctor,
     JS.includesChar "-"%char tagName = true ->
     customElements ext tagName = Some ctor ->
     ctorThrows ctor = None ->
     handleNode ext self result template cur node (pushFrame tagName w) =
       elementBody ext self result template tagName attrs off
         (Some (length (heap w))) true cur
         (setInstances
            (instances w ++ [{| frame_tagName := tagName;
                                frame_instance := Some (length (heap w)) |}])
            (setHeap (heap w ++ [{| classOf := ctor; props := ∅ |}]) w))).
Proof.
  intros node. split; [reflexivity|]. split.
  - rewrite renderTopLevelNode_frames. reflexivity.
  - intros ctor Hdash Hctor Hreturns.
    unfold node, handleNode.
    rewrite (bind_silent _ _ _ _ _
               (instantiate_stores_in_top_frame ext tagName ctor (instances w)
                  {| frame_tagName := tagName; frame_instance := None |}
                  (pushFrame tagName w) Hdash Hctor Hreturns eq_refl)).
    reflexivity.
Qed.

Lemma top_level_element_frame_witness :
  handleNode Example.ext (renderValue Example.ext 3) Example.host
    (parseTemplate Example.ext Example.host) initialCursor Example.hostNode
    (pushFrame "x-host" Example.emptyWorld) =
  elementBody Example.ext (renderValue Example.ext 3) Example.host
    (parseTemplate Example.ext Example.host) "x-host" [] 8 (Some 0) true initialCursor
    (setInstances [{| frame_tagName := "x-host"; frame_instance := Some 0 |}]
       (setHeap [{| classOf := Example.xhost; props := ∅ |}] Example.emptyWorld)).
Proof.
  destruct (top_level_element_frame Example.ext (renderValue Example.ext 3) Example.host
              (parseTemplate Example.ext Example.host) initialCursor "x-host" [] 8 []
              Example.emptyWorld) as (_ & _ & Hstored).
  exact (Hstored Example.xhost eq_refl eq_refl eq_refl).
Defined.

(** The frame on top need not be one of a custom element: inside the [p] of
    the template that [x-host] renders, a directive is handed the stack
    [x-host; p], with the frame of [p] on top and that of the enclosing custom
    element below it. *)
Lemma plain_element_frame_on_top :
  chunks (render Example.ext 4 (VTemplateResult Example.host) Example.emptyWorld) =
  ["<!--lit-part HOST-->"; "<x-host>";
   "<!--lit-part DIGEST-->"; "<p>Hello, ";
   "<!--lit-part-->"; "x-host"; "p"; "<!--/lit-part-->";
   "!</p>"; "<!--/lit-part-->";
   "</x-host>"; "<!--/lit-part-->"].
Proof. vm_compute. reflexivity. Qed.

(** Below a top-level element no frame is pushed: in
    [<div><x-foo></x-foo></div>] the nested [x-foo] is handled with the frame
    of [div] on top, its new instance is stored in the frame of [div], and no
    frame of [x-foo] exists. *)
Lemma nested_element_shares_top_frame :
  let template := parseTemplate Example.ext Example.nested in
  let before := traverse pre post Example.divNode (pushFrame "div" Example.emptyWorld) in
  let run := foldGen (handleNode Example.ext (renderValue Example.ext 2) Example.nested template)
               (depthFirst Example.divNode) initialCursor before in
  instances before = [{| frame_tagName := "div"; frame_instance := None |}] /\
  instances (world run) = [{| frame_tagName := "div"; frame_instance := Some 0 |}] /\
  length (heap (world run)) = 1 /\
  chunks run = ["<div><x-foo>"; "<!--lit-part-->"; "inner"; "<!--/lit-part-->"] /\
  completion run = Done {| partIndex := 0; templatePartIndex := (-1)%Z; lastOffset := Some 12 |}.
Proof. vm_compute. repeat split; reflexivity. Qed.

(** ** Values without nested renders, and the examples of the specification *)

(** The branches that render nothing, or a text, cannot throw: the wrapped
    output is complete whatever the state. *)
Lemma renderValue_leaves (ext : Externals) (fuel : nat) (v : value) (w : World) :
  match v with
  | VUndefined | VNull | VNothing | VNoChange =>
      renderValue ext (S fuel) v w = mkRun [opening v; closing] w (Done tt)
  | VBool _ | VNum _ | VStr _ | VClassMap _ =>
      renderValue ext (S fuel) v w = mkRun [opening v; String_ ext v; closing] w (Done tt)
  | _ => True
  end.
Proof. destruct v; try exact I; reflexivity. Qed.

Example render_hello :
  String.concat "" (chunks (render Example.ext 2 (VTemplateResult (Example.hello [VStr "World"]))
                              Example.emptyWorld)) =
  "<!--lit-part DIGEST--><p>Hello, <!--lit-part-->World<!--/lit-part-->!</p><!--/lit-part-->".
Proof. vm_compute. reflexivity. Qed.

Example render_input_disabled :
  String.concat "" (chunks (render Example.ext 2 (VTemplateResult (Example.input [VBool true]))
                              Example.emptyWorld)) =
  "<!--lit-part INPUT--><input disabled><!--lit-bindings 0--><!--/lit-part-->".
Proof. vm_compute. reflexivity. Qed.

Example render_input_enabled :
  String.concat "" (chunks (render Example.ext 2 (VTemplateResult (Example.input [VBool false]))
                              Example.emptyWorld)) =
  "<!--lit-part INPUT--><input ><!--lit-bindings 0--><!--/lit-part-->".
Proof. vm_compute. reflexivity. Qed.

(** The element after a plain comment is announced under index 2, while it
    is the node of index 1. *)
Example render_noted :
  chunks (render Example.ext 2 (VTemplateResult (Example.noted [VStr "big"]))
            Example.emptyWorld) =
  ["<!--lit-part NOTED-->"; "<!--note--><p "; "class=" +:+ dquote +:+ "big" +:+ dquote; ">";
   "<!--lit-bindings 2-->"; "</p>"; "<!--/lit-part-->"].
Proof. vm_compute. reflexivity. Qed.

(** The element whose constructor throws is rendered as its literal HTML,
    and the exception is on the console. *)
Example render_bad :
  render Example.ext 2 (VTemplateResult Example.bad) Example.emptyWorld =
  mkRun ["<!--lit-part BAD-->"; "<x-bad>"; "</x-bad>"; "<!--/lit-part-->"]
    (setConsole [CtorException (Thrown "boom")]
       (world (getTemplate Example.ext Example.bad Example.emptyWorld)))
    (Done tt).
Proof. vm_compute. reflexivity. Qed.

(** * Further properties of the renderer *)

(** ** Attribute values *)

Lemma splitFrom_replaceFrom (ext : Externals) (vals : list value) (s : string) :
  forall skip cur startIndex,
    cur +:+ replaceFrom ext skip vals startIndex s =
    weave ext (splitFrom (rnd ext) skip cur s) vals startIndex.
Proof.
  induction s as [|c s IH]; intros skip cur startIndex.
  - simpl. apply string_app_nil_r.
  - destruct skip as [|k]; simpl.
    + destruct (markerAt (rnd ext) (String c s)) as [k|].
      * destruct (splitFrom_head (rnd ext) s k "") as (rest & tl & Heq).
        pose proof (IH k "" (S startIndex)) as Hrest.
        rewrite Heq in Hrest |- *.
        change (weave ext (cur :: ("" +:+ rest) :: tl) vals startIndex)
          with (cur +:+ resolveAttrValue ext (vals !! startIndex)
                    +:+ weave ext (("" +:+ rest) :: tl) vals (S startIndex)).
        rewrite <- Hrest. reflexivity.
      * rewrite <- IH. rewrite string_app_assoc. reflexivity.
    + apply IH.
Qed.

(** [getAttrValue] and [split] read the raw value alike: the text that
    [getAttrValue] builds is the static fragments of [split], in order, with
    the values from [startIndex] on between them, each as the text of its
    class-map directive or as [String(value)]; a value that is missing
    counts as [undefined]. *)
Theorem getAttrValue_weaves_statics (ext : Externals) (attr : Attribute)
    (result : TemplateResult) (startIndex : nat) :
  getAttrValue ext attr result startIndex =
  weave ext (split (rnd ext) (attr_value attr)) (values result) startIndex.
Proof.
  unfold getAttrValue, split.
  rewrite <- splitFrom_replaceFrom. reflexivity.
Qed.

(** ** The cursors over one attribute *)

Lemma handleBinding_partIndex (ext : Externals) (result : TemplateResult)
    (tagName : string) (instance : option nat) (attr : Attribute)
    (name attributeName : string) (statics : list string) (cur cur' : Cursor) (w : World) :
  completion (handleBinding ext result tagName instance attr name attributeName statics cur w)
    = Done cur' ->
  partIndex cur' = partIndex cur + (length statics - 1) /\
  templatePartIndex cur' = templatePartIndex cur.
Proof.
  unfold handleBinding.
  destruct (JS.startsWith name ".").
  { destruct (bool_decide_reflect (length statics = 2)) as [Hlen|Hlen];
      intros H; done_inversion; simpl; [rewrite Hlen|]; auto. }
  destruct (JS.startsWith name "@").
  { intros H; done_inversion; auto. }
  destruct (JS.startsWith name "?").
  { destruct (bool_decide_reflect (statics = [""; ""])) as [->|];
      intros H; done_inversion; auto. }
  intros H; done_inversion; auto.
Qed.

(** Whatever its kind, a bound attribute that is handled without an error
    has consumed one value per marker in its raw value, counts as one bound
    attribute and one template part, and leaves [lastOffset] at its end; an
    attribute that is not bound changes nothing. *)
Lemma handleAttr_cursor (ext : Externals) (result : TemplateResult)
    (template : ParsedTemplate) (tagName : string) (instance : option nat)
    (cur cur' : Cursor) (n n' : nat) (attr : Attribute) (w : World) :
  completion (handleAttr ext result template tagName instance (cur, n) attr w)
    = Done (cur', n') ->
  if JS.endsWith (attr_name attr) "$lit$" then
    partIndex cur' = partIndex cur + (length (split (rnd ext) (attr_value attr)) - 1) /\
    templatePartIndex cur' = (templatePartIndex cur + 1)%Z /\
    lastOffset cur' = Some (attr_endOffset attr) /\
    n' = n + 1
  else cur' = cur /\ n' = n.
Proof.
  unfold handleAttr.
  destruct (JS.endsWith (attr_name attr) "$lit$").
  - destruct (lastAttributeName ext _) as [name|]; [|discriminate].
    intros H.
    apply bind_done in H. destruct H as (u & _ & H & _ & _).
    apply bind_done in H. destruct H as (cur1 & Hbinding & H & _ & _).
    apply bind_done in H. destruct H as (cur2 & Hskip & H & _ & _).
    simpl in H. injection H as <- <-.
    apply handleBinding_partIndex in Hbinding. destruct Hbinding as [Hpart Htpi].
    apply lift_done in Hskip.
    pose proof (skipTo_defined _ _ _ Hskip) as Hlast.
    unfold skipTo in Hskip. destruct (lastOffset cur1) as [last|]; [|discriminate].
    destruct (attr_endOffset attr <? last)%nat; [discriminate|].
    injection Hskip as <-. simpl in *.
    rewrite Hpart, Htpi. auto.
  - intros H. simpl in H. injection H as <- <-. auto.
Qed.

(** ** Flushing in steps *)

Lemma substring_split (s : string) :
  forall n m1 m2,
    String.substring n m1 s +:+ String.substring (n + m1) m2 s =
    String.substring n (m1 + m2) s.
Proof.
  induction s as [|c s IH]; intros n m1 m2.
  - destruct n, m1, m2; reflexivity.
  - destruct n as [|n].
    + destruct m1 as [|m1].
      * reflexivity.
      * change (String c (String.substring 0 m1 s +:+ String.substring (0 + m1) m2 s) =
                String c (String.substring 0 (m1 + m2) s)).
        f_equal. apply IH.
    + apply (IH n m1 m2).
Qed.

Lemma substring_all (s : string) : JS.substring s (Some 0) None = s.
Proof.
  unfold JS.substring. simpl.
  rewrite Nat.min_id, Nat.sub_0_r.
  induction s as [|c s IH]; [reflexivity|].
  simpl. f_equal. exact IH.
Qed.

Lemma js_substring_app (s : string) (l a : nat) (b : option nat) :
  l <= a ->
  (forall b', b = Some b' -> a <= b') ->
  JS.substring s (Some l) (Some a) +:+ JS.substring s (Some a) b =
  JS.substring s (Some l) b.
Proof.
  intros Hla Hab. unfold JS.substring. simpl.
  set (len := String.length s).
  assert (Hb : Nat.min a len <= Nat.min (default len b) len).
  { destruct b as [b'|]; simpl; [specialize (Hab b' eq_refl)|]; lia. }
  rewrite (Nat.min_l (Nat.min l len) (Nat.min a len)) by lia.
  rewrite (Nat.max_r (Nat.min l len) (Nat.min a len)) by lia.
  rewrite (Nat.min_l (Nat.min a len) (Nat.min (default len b) len)) by lia.
  rewrite (Nat.max_r (Nat.min a len) (Nat.min (default len b) len)) by lia.
  rewrite (Nat.min_l (Nat.min l len) (Nat.min (default len b) len)) by lia.
  rewrite (Nat.max_r (Nat.min l len) (Nat.min (default len b) len)) by lia.
  replace (Nat.min a len) with (Nat.min l len + (Nat.min a len - Nat.min l len)) at 2 by lia.
  rewrite substring_split. f_equal. lia.
Qed.

(** Two flushes in a row, to offsets in order, emit between them the text
    that one flush to the second offset emits, and end on the same cursor: the
    chunking of the HTML does not change the text. *)
Theorem flushTo_in_steps (html : string) (cur : Cursor) (last a : nat) (b : option nat) :
  lastOffset cur = Some last ->
  last <= a ->
  (forall b', b = Some b' -> a <= b') ->
  exists c1 cur1 c2 cur2,
    flushTo html (Some a) cur = inr (c1, cur1) /\
    flushTo html b cur1 = inr (c2, cur2) /\
    flushTo html b cur = inr (c1 +:+ c2, cur2).
Proof.
  intros Hlast Hla Hab. unfold flushTo. rewrite Hlast. simpl.
  eexists; eexists; eexists; eexists.
  split; [reflexivity|]. split; [reflexivity|].
  rewrite js_substring_app by assumption. reflexivity.
Qed.

Lemma flushTo_in_steps_witness :
  exists c1 cur1 c2 cur2,
    flushTo Example.helloHtml (Some 10) Example.someCursor = inr (c1, cur1) /\
    flushTo Example.helloHtml (Some 28) cur1 = inr (c2, cur2) /\
    flushTo Example.helloHtml (Some 28) Example.someCursor = inr (c1 +:+ c2, cur2).
Proof.
  apply (flushTo_in_steps Example.helloHtml Example.someCursor 3 10 (Some 28) eq_refl).
  - lia.
  - intros b' Hb. injection Hb as <-. lia.
Defined.

(** ** Templates without dynamic content *)

Lemma foldGen_silent {S A} (f : S -> A -> Gen S) (l : list A) :
  (forall x, In x l -> forall s w, f s x w = mkRun [] w (Done s)) ->
  forall s w, foldGen f l s w = mkRun [] w (Done s).
Proof.
  induction l as [|x l IH]; intros Hsilent s w; [reflexivity|].
  simpl. rewrite (bind_silent _ _ w w s (Hsilent x (or_introl eq_refl) s w)).
  apply IH. intros y Hy. apply Hsilent. right. exact Hy.
Qed.

Section Inert.

Variable ext : Externals.
Variable self : value -> Gen unit.
Variable result : TemplateResult.
Variable template : ParsedTemplate.

Lemma handleNode_inert (cur : Cursor) (node : Node) (w : World) :
  inertNode ext node = true ->
  handleNode ext self result template cur node w = mkRun [] w (Done cur).
Proof.
  destruct node as [cs|tagName attrs off cs|data so eo|text]; simpl inertNode; intros Hinert.
  - reflexivity.
  - apply andb_true_iff in Hinert. destruct Hinert as [Hattrs Hplain].
    rewrite handleNode_not_custom.
    + unfold elementBody.
      rewrite (bind_silent _ _ w w (cur, 0)).
      * reflexivity.
      * apply foldGen_silent. intros attr Hin [c n] w0.
        rewrite forallb_forall in Hattrs. specialize (Hattrs attr Hin).
        unfold handleAttr. destruct (JS.endsWith (attr_name attr) "$lit$"); [discriminate|].
        reflexivity.
    + destruct (JS.includesChar "-"%char tagName); [|left; reflexivity].
      right. destruct (customElements ext tagName); [discriminate|reflexivity].
  - simpl. destruct (bool_decide (data = marker (rnd ext))); [discriminate|reflexivity].
  - reflexivity.
Qed.

Lemma renderTopLevelNode_inert (cur : Cursor) (node : Node) (w : World) :
  forallb (inertNode ext) (depthFirst node) = true ->
  renderTopLevelNode ext self result template cur node w = mkRun [] w (Done cur).
Proof.
  intros Hinert. rewrite renderTopLevelNode_frames.
  rewrite forallb_forall in Hinert.
  rewrite (bind_silent _ _ _ _ cur
             (foldGen_silent _ _ (fun x Hx s w0 => handleNode_inert s x w0 (Hinert x Hx)) _ _)).
  destruct node as [cs|tagName attrs off cs|data so eo|text]; try reflexivity.
  unfold bind, modify, ret. simpl. rewrite popFrame_pushFrame. reflexivity.
Qed.

End Inert.

(** A template whose parsed nodes hold no marker, no bound attribute and no
    registered custom element is rendered as its HTML in one chunk, verbatim,
    with no effect on the frame stack, the element objects or the console;
    the render completes when the result carries no value and throws the
    final-[partIndex] error when it carries any. *)
Theorem static_template_verbatim (ext : Externals) (self : value -> Gen unit)
    (result : TemplateResult) (w : World) (t : ParsedTemplate) (nodes : list Node) :
  completion (getTemplate ext result w) = Done t ->
  getChildNodes (ast t) = Some nodes ->
  (forall node, In node nodes -> forallb (inertNode ext) (depthFirst node) = true) ->
  renderTemplateResultWith ext self result w =
    mkRun [html t] (world (getTemplate ext result w))
      (if bool_decide (0 = length (values result)) then Done 0
       else Throw (FinalPartIndex 0 (length (values result)))).
Proof.
  intros Ht Hnodes Hinert.
  rewrite (renderTemplateResultWith_traversal ext self result w t nodes Ht Hnodes).
  unfold renderChildNodes.
  rewrite (bind_silent _ _ _ _ initialCursor
             (foldGen_silent _ _
                (fun x Hx s w0 => renderTopLevelNode_inert ext self result t s x w0 (Hinert x Hx))
                _ _)).
  rewrite (finish_run result t initialCursor 0 _ eq_refl).
  rewrite substring_all. reflexivity.
Qed.

Lemma static_template_verbatim_witness :
  renderTemplateResultWith Sample.ext (renderValue Sample.ext 1) (Sample.static [])
    Example.emptyWorld =
  mkRun ["<section><!--note--><p>plain</p></section>"]
    (world (getTemplate Sample.ext (Sample.static []) Example.emptyWorld)) (Done 0).
Proof.
  apply (static_template_verbatim Sample.ext (renderValue Sample.ext 1) (Sample.static [])
           Example.emptyWorld (parseTemplate Sample.ext (Sample.static []))
           [Element "section" [] 9 [CommentNode "note" 9 20; Element "p" [] 23 [TextNode "plain"]]]
           eq_refl eq_refl).
  intros node [<-|[]]. reflexivity.
Defined.

(** ** The traversal in step with the part list *)

Lemma slotCount_app (ps qs : list TemplatePart) :
  slotCount (ps ++ qs) = slotCount ps + slotCount qs.
Proof.
  unfold slotCount. induction ps as [|p ps IH]; simpl; [reflexivity|].
  rewrite IH. lia.
Qed.

Lemma inStep_app (ps added : list TemplatePart) (cur cur' : Cursor) :
  inStep ps cur ->
  templatePartIndex cur' = (templatePartIndex cur + Z.of_nat (length added))%Z ->
  partIndex cur' = partIndex cur + slotCount added ->
  inStep (ps ++ added) cur'.
Proof.
  intros [Htpi Hpart] Htpi' Hpart'. split.
  - rewrite length_app. lia.
  - rewrite slotCount_app. lia.
Qed.

Lemma depthFirst_fragment (nodes : list Node) :
  depthFirst (DocumentFragment (Some nodes)) =
  DocumentFragment (Some nodes) :: flat_map depthFirst nodes.
Proof.
  reflexivity.
Qed.

(** The parts recorded over one node: those before, then those of the node. *)
Lemma extractStep_parts (ext : Externals) (i : Z) (ps : list TemplatePart) (node : Node) :
  snd (extractStep ext (i, ps) node) =
  ps ++ match node with
        | CommentNode data _ _ =>
            if bool_decide (data = marker (rnd ext)) then [NodePart i] else []
        | Element _ attrs _ _ => attributeParts ext i attrs
        | _ => []
        end.
Proof.
  destruct node as [cs|tagName attrs off cs|data so eo|text]; simpl.
  - symmetry. apply app_nil_r.
  - destruct attrs as [|attr attrs]; simpl; [symmetry; apply app_nil_r|reflexivity].
  - destruct (bool_decide (data = marker (rnd ext))); [reflexivity|].
    symmetry. apply app_nil_r.
  - symmetry. apply app_nil_r.
Qed.

Section Lockstep.

Variable ext : Externals.
Variable self : value -> Gen unit.
Variable result : TemplateResult.
Variable template : ParsedTemplate.

Lemma handleAttrs_cursor (tagName : string) (instance : option nat) (i : Z)
    (attrs : list Attribute) :
  forall cur n cur' n' w,
    completion (foldGen (handleAttr ext result template tagName instance) attrs (cur, n) w)
      = Done (cur', n') ->
    templatePartIndex cur' =
      (templatePartIndex cur + Z.of_nat (length (attributeParts ext i attrs)))%Z /\
    partIndex cur' = partIndex cur + slotCount (attributeParts ext i attrs) /\
    n' = n + length (attributeParts ext i attrs).
Proof.
  induction attrs as [|attr attrs IH]; intros cur n cur' n' w Hdone.
  - simpl in Hdone. injection Hdone as <- <-. simpl. unfold slotCount. simpl. lia.
  - simpl in Hdone. apply bind_done in Hdone.
    destruct Hdone as ([cur1 n1] & Hfirst & Hrest & _ & _).
    apply handleAttr_cursor in Hfirst. apply IH in Hrest.
    destruct Hrest as (Htpi & Hpart & Hn).
    change (attributeParts ext i (attr :: attrs))
      with ((if JS.endsWith (attr_name attr) boundAttributeSuffix
             then [AttributePart i
                     (JS.dropSuffix (attr_name attr) (String.length boundAttributeSuffix))
                     (split (rnd ext) (attr_value attr))]
             else []) ++ attributeParts ext i attrs).
    rewrite length_app, slotCount_app.
    change boundAttributeSuffix with "$lit$".
    destruct (JS.endsWith (attr_name attr) "$lit$").
    + destruct Hfirst as (Hpart1 & Htpi1 & _ & Hn1).
      unfold slotCount at 1. simpl. lia.
    + destruct Hfirst as [-> ->]. unfold slotCount at 1. simpl. lia.
Qed.

Lemma flushTo_cursor (html : string) (offset : option nat) (cur cur' : Cursor) (chunk : string) :
  flushTo html offset cur = inr (chunk, cur') ->
  templatePartIndex cur' = templatePartIndex cur /\ partIndex cur' = partIndex cur.
Proof.
  unfold flushTo. destruct (lastOffset cur); [|discriminate].
  intros H. injection H as _ <-. auto.
Qed.

Lemma skipTo_cursor (offset : nat) (cur cur' : Cursor) :
  skipTo offset cur = inr cur' ->
  templatePartIndex cur' = templatePartIndex cur /\ partIndex cur' = partIndex cur.
Proof.
  unfold skipTo. destruct (lastOffset cur) as [last|]; [|discriminate].
  destruct (offset <? last)%nat; [discriminate|].
  intros H. injection H as <-. auto.
Qed.

Lemma elementBody_cursor (tagName : string) (attrs : list Attribute) (off : nat)
    (instance : option nat) (writeTag : bool) (i : Z) (cur cur' : Cursor) (w : World) :
  completion (elementBody ext self result template tagName attrs off instance writeTag cur w)
    = Done cur' ->
  templatePartIndex cur' =
    (templatePartIndex cur + Z.of_nat (length (attributeParts ext i attrs)))%Z /\
  partIndex cur' = partIndex cur + slotCount (attributeParts ext i attrs).
Proof.
  unfold elementBody. intros H.
  apply bind_done in H. destruct H as ([cur1 n] & Hattrs & H & _ & _).
  apply (handleAttrs_cursor tagName instance i) in Hattrs.
  destruct Hattrs as (Htpi & Hpart & _).
  apply bind_done in H. destruct H as (cur2 & Hflush & H & _ & _).
  assert (Hsame : templatePartIndex cur2 = templatePartIndex cur1 /\
                  partIndex cur2 = partIndex cur1).
  { destruct (writeTag || (0 <? n)%nat).
    - apply bind_done in Hflush. destruct Hflush as ([chunk cur3] & Hf & Hy & _ & _).
      apply lift_done, flushTo_cursor in Hf. done_inversion. exact Hf.
    - done_inversion. auto. }
  done_inversion. destruct Hsame as [-> ->]. auto.
Qed.

Lemma handleNode_inStep (i : Z) (ps : list TemplatePart) (cur cur' : Cursor)
    (node : Node) (w : World) :
  completion (handleNode ext self result template cur node w) = Done cur' ->
  inStep ps cur ->
  inStep (snd (extractStep ext (i, ps) node)) cur'.
Proof.
  intros Hdone Hstep. rewrite extractStep_parts.
  destruct node as [cs|tagName attrs off cs|data so eo|text]; simpl in Hdone.
  - injection Hdone as <-. rewrite app_nil_r. exact Hstep.
  - apply bind_done in Hdone. destruct Hdone as ([instance writeTag] & _ & Hbody & _ & _).
    apply (elementBody_cursor _ _ _ _ _ i) in Hbody. destruct Hbody as [Htpi Hpart].
    eapply inStep_app; eassumption.
  - destruct (bool_decide (data = marker (rnd ext))).
    + apply bind_done in Hdone. destruct Hdone as ([chunk cur1] & Hflush & Hdone & _ & _).
      apply lift_done, flushTo_cursor in Hflush. destruct Hflush as [Htpi1 Hpart1].
      apply bind_done in Hdone. destruct Hdone as (u & _ & Hdone & _ & _).
      apply bind_done in Hdone. destruct Hdone as (cur2 & Hskip & Hdone & _ & _).
      apply lift_done, skipTo_cursor in Hskip. destruct Hskip as [Htpi2 Hpart2].
      done_inversion.
      eapply inStep_app; [exact Hstep| |]; simpl; unfold slotCount; simpl; lia.
    + injection Hdone as <-. rewrite app_nil_r. exact Hstep.
  - injection Hdone as <-. rewrite app_nil_r. exact Hstep.
Qed.

Lemma handleNodes_inStep (l : list Node) :
  forall acc cur cur' w,
    completion (foldGen (handleNode ext self result template) l cur w) = Done cur' ->
    inStep (snd acc) cur ->
    inStep (snd (fold_left (extractStep ext) l acc)) cur'.
Proof.
  induction l as [|node l IH]; intros [i ps] cur cur' w Hdone Hstep; simpl in *.
  - injection Hdone as <-. exact Hstep.
  - apply bind_done in Hdone. destruct Hdone as (cur1 & Hfirst & Hrest & _ & _).
    apply (IH (extractStep ext (i, ps) node) cur1 cur' _ Hrest).
    eapply handleNode_inStep; eassumption.
Qed.

Lemma renderTopLevelNode_cursor (cur cur' : Cursor) (node : Node) (w : World) :
  completion (renderTopLevelNode ext self result template cur node w) = Done cur' ->
  exists w', completion (foldGen (handleNode ext self result template)
                           (depthFirst node) cur w') = Done cur'.
Proof.
  rewrite renderTopLevelNode_frames. intros H.
  apply bind_done in H. destruct H as (cur1 & Hfold & H & _ & _).
  apply bind_done in H. destruct H as (u & _ & H & _ & _).
  simpl in H. injection H as <-. eexists. exact Hfold.
Qed.

Lemma renderTopLevelNodes_inStep (nodes : list Node) :
  forall acc cur cur' w,
    completion (foldGen (renderTopLevelNode ext self result template) nodes cur w)
      = Done cur' ->
    inStep (snd acc) cur ->
    inStep (snd (fold_left (extractStep ext) (flat_map depthFirst nodes) acc)) cur'.
Proof.
  induction nodes as [|node nodes IH]; intros acc cur cur' w Hdone Hstep; simpl in *.
  - injection Hdone as <-. exact Hstep.
  - apply bind_done in Hdone. destruct Hdone as (cur1 & Hfirst & Hrest & _ & _).
    rewrite fold_left_app.
    apply (IH _ cur1 cur' _ Hrest).
    apply renderTopLevelNode_cursor in Hfirst. destruct Hfirst as [w' Hfold].
    eapply handleNodes_inStep; eassumption.
Qed.

End Lockstep.

Lemma traversal_cursor_defined (ext : Externals) (self : value -> Gen unit)
    (result : TemplateResult) (t : ParsedTemplate) (nodes : list Node) (cur : Cursor)
    (w : World) :
  completion (renderChildNodes ext self result t nodes w) = Done cur ->
  exists last, lastOffset cur = Some last.
Proof.
  intros Hdone. destruct (lastOffset cur) as [last|] eqn:Hlast; [eauto|].
  exfalso. exact (renderChildNodes_lastOffset ext self result t nodes cur w Hdone Hlast).
Qed.

(** On a template paired with the parts of its own fragment, a traversal that
    completes has passed every part exactly once, in the order of the list,
    and has consumed exactly the values the parts stand for: one per node
    part and one per marker of an attribute part. *)
Theorem traversal_in_step (ext : Externals) (self : value -> Gen unit)
    (result : TemplateResult) (t : ParsedTemplate) (nodes : list Node)
    (cur : Cursor) (w : World) :
  ast t = DocumentFragment (Some nodes) ->
  parts t = snd (extractParts ext (ast t)) ->
  completion (renderChildNodes ext self result t nodes w) = Done cur ->
  (templatePartIndex cur + 1)%Z = Z.of_nat (length (parts t)) /\
  partIndex cur = slotCount (parts t).
Proof.
  intros Hast Hparts Hdone.
  change (inStep (parts t) cur).
  rewrite Hparts. unfold extractParts. rewrite Hast, depthFirst_fragment.
  change (fold_left (extractStep ext)
            (DocumentFragment (Some nodes) :: flat_map depthFirst nodes) ((-1)%Z, []))
    with (fold_left (extractStep ext) (flat_map depthFirst nodes) (0%Z, [])).
  apply (renderTopLevelNodes_inStep ext self result t nodes (0%Z, []) initialCursor cur w Hdone).
  split; reflexivity.
Qed.

Lemma traversal_in_step_witness :
  (templatePartIndex
     {| partIndex := 5; templatePartIndex := 3; lastOffset := Some 105%nat |} + 1)%Z
    = Z.of_nat (length (parts (parseTemplate Sample.ext (Sample.card Sample.cardValues)))) /\
  partIndex {| partIndex := 5; templatePartIndex := 3; lastOffset := Some 105 |} =
    slotCount (parts (parseTemplate Sample.ext (Sample.card Sample.cardValues))).
Proof.
  apply (traversal_in_step Sample.ext (renderValue Sample.ext 2)
           (Sample.card Sample.cardValues)
           (parseTemplate Sample.ext (Sample.card Sample.cardValues))
           [Sample.cardNode]
           {| partIndex := 5; templatePartIndex := 3; lastOffset := Some 105 |}
           Example.emptyWorld eq_refl eq_refl).
  vm_compute. reflexivity.
Defined.

(** A render of a result whose template is not cached yet completes only if
    the result carries exactly as many values as its parsed HTML has
    expression slots; the count of consumed values it ends with is that
    number. *)
Theorem render_needs_matching_values (ext : Externals) (self : value -> Gen unit)
    (result : TemplateResult) (w : World) (nodes : list Node) (n : nat) :
  templateCache w !! ident (strings result) = None ->
  parseFragment ext (getHTML result) = DocumentFragment (Some nodes) ->
  completion (renderTemplateResultWith ext self result w) = Done n ->
  length (values result) = slotCount (snd (extractParts ext (parseFragment ext (getHTML result))))
  /\ n = length (values result).
Proof.
  intros Hfresh Hparse Hdone.
  assert (Ht : completion (getTemplate ext result w) = Done (parseTemplate ext result)).
  { unfold getTemplate. rewrite Hfresh. reflexivity. }
  assert (Hnodes : getChildNodes (ast (parseTemplate ext result)) = Some nodes).
  { simpl. rewrite Hparse. reflexivity. }
  rewrite (renderTemplateResultWith_traversal ext self result w _ nodes Ht Hnodes) in Hdone.
  apply bind_done in Hdone. destruct Hdone as (cur & Htraversal & Hfinish & _ & _).
  destruct (traversal_cursor_defined ext self result _ nodes cur _ Htraversal) as [last Hlast].
  rewrite (finish_run result _ cur last _ Hlast) in Hfinish. simpl in Hfinish.
  destruct (bool_decide_reflect (partIndex cur = length (values result))) as [Heq|];
    [|discriminate].
  injection Hfinish as <-.
  assert (Hstep : inStep (parts (parseTemplate ext result)) cur).
  { simpl. unfold extractParts. rewrite Hparse, depthFirst_fragment.
    change (fold_left (extractStep ext)
              (DocumentFragment (Some nodes) :: flat_map depthFirst nodes) ((-1)%Z, []))
      with (fold_left (extractStep ext) (flat_map depthFirst nodes) (0%Z, [])).
    apply (renderTopLevelNodes_inStep ext self result _ nodes (0%Z, []) initialCursor cur _
             Htraversal).
    split; reflexivity. }
  destruct Hstep as [_ Hcount]. simpl in Hcount.
  split; [|exact Heq]. rewrite <- Heq. exact Hcount.
Qed.

Lemma render_needs_matching_values_witness :
  length (values (Sample.card Sample.cardValues)) =
    slotCount (snd (extractParts Sample.ext
                      (parseFragment Sample.ext (getHTML (Sample.card Sample.cardValues)))))
  /\ 5 = length (values (Sample.card Sample.cardValues)).
Proof.
  apply (render_needs_matching_values Sample.ext (renderValue Sample.ext 2)
           (Sample.card Sample.cardValues) Example.emptyWorld [Sample.cardNode] 5
           eq_refl eq_refl).
  vm_compute. reflexivity.
Defined.

(** ** The part behind a bindings comment *)

Lemma attributeParts_index (ext : Externals) (i : Z) (attrs : list Attribute) (p : TemplatePart) :
  In p (attributeParts ext i attrs) -> part_index p = i.
Proof.
  unfold attributeParts. rewrite in_flat_map. intros (attr & _ & Hp).
  destruct (JS.endsWith (attr_name attr) boundAttributeSuffix); [|destruct Hp].
  destruct Hp as [<-|[]]. reflexivity.
Qed.

(** In step with the parts before an element, and with the element's own
    parts next in the list, the part at [templatePartIndex] after its
    attributes is the last of its own, with the node index the extractor gave
    the element. *)
Lemma templatePartAt_own (ext : Externals) (t : ParsedTemplate) (ps more : list TemplatePart)
    (i : Z) (attrs : list Attribute) (cur cur1 : Cursor) :
  inStep ps cur ->
  parts t = ps ++ attributeParts ext i attrs ++ more ->
  templatePartIndex cur1 =
    (templatePartIndex cur + Z.of_nat (length (attributeParts ext i attrs)))%Z ->
  0 < length (attributeParts ext i attrs) ->
  exists p, templatePartAt t (templatePartIndex cur1) = Some p /\ part_index p = i.
Proof.
  intros [Htpi _] Hparts Htpi1 Hsome.
  unfold templatePartAt.
  destruct (Z.ltb_spec (templatePartIndex cur1) 0) as [Hneg|_]; [lia|].
  replace (Z.to_nat (templatePartIndex cur1))
    with (length ps + (length (attributeParts ext i attrs) - 1)) by lia.
  rewrite Hparts, lookup_app_r by lia.
  replace (length ps + (length (attributeParts ext i attrs) - 1) - length ps)
    with (length (attributeParts ext i attrs) - 1) by lia.
  rewrite lookup_app_l by lia.
  destruct (attributeParts ext i attrs !! (length (attributeParts ext i attrs) - 1))
    as [p|] eqn:Hp.
  - exists p. split; [reflexivity|].
    apply (attributeParts_index ext i attrs). apply list_elem_of_In.
    eapply list_elem_of_lookup_2. exact Hp.
  - apply lookup_ge_None in Hp. lia.
Qed.

Lemma handleAttrs_bound_lastOffset (ext : Externals) (result : TemplateResult)
    (template : ParsedTemplate) (tagName : string) (instance : option nat)
    (attrs : list Attribute) :
  forall cur n cur' n' w,
    completion (foldGen (handleAttr ext result template tagName instance) attrs (cur, n) w)
      = Done (cur', n') ->
    n < n' ->
    exists last, lastOffset cur' = Some last.
Proof.
  induction attrs as [|attr attrs IH]; intros cur n cur' n' w Hdone Hlt;
    cbn [foldGen] in Hdone.
  - injection Hdone as <- <-. lia.
  - apply bind_done in Hdone. destruct Hdone as ([cur1 n1] & Hfirst & Hrest & _ & _).
    pose proof (handleAttr_cursor _ _ _ _ _ _ _ _ _ _ _ Hfirst) as Hcursor.
    destruct (JS.endsWith (attr_name attr) "$lit$").
    + destruct Hcursor as (_ & _ & Hlast & _).
      assert (Hdefined : lastOffset (fst (cur', n')) <> None).
      { eapply (foldGen_invariant (fun acc => lastOffset (fst acc) <> None)
                 (handleAttr ext result template tagName instance)
                 (fun s x w0 s' => handleAttr_lastOffset ext result template tagName instance
                                     s s' x w0)
                 attrs (cur1, n1) _ (cur', n')); [|exact Hrest].
        simpl. rewrite Hlast. discriminate. }
      simpl in Hdefined. destruct (lastOffset cur') as [last|]; [eauto|congruence].
    + destruct Hcursor as [-> ->]. eapply IH; eassumption.
Qed.

(** For an element with a bound attribute whose attributes are handled
    without an error, in step with the part list: right after the chunks of
    the attributes comes the rest of the start tag, and right after it the
    bindings comment, which carries the node index the extractor gave this
    element. *)
Theorem bindings_comment_carries_node_index (ext : Externals) (self : value -> Gen unit)
    (result : TemplateResult) (t : ParsedTemplate) (ps more : list TemplatePart) (i : Z)
    (tagName : string) (attrs : list Attribute) (off : nat) (instance : option nat)
    (writeTag : bool) (cur cur1 : Cursor) (n : nat) (w : World) :
  inStep ps cur ->
  parts t = ps ++ attributeParts ext i attrs ++ more ->
  completion (foldGen (handleAttr ext result t tagName instance) attrs (cur, 0) w)
    = Done (cur1, n) ->
  0 < n ->
  exists last rest,
    lastOffset cur1 = Some last /\
    chunks (elementBody ext self result t tagName attrs off instance writeTag cur w) =
      chunks (foldGen (handleAttr ext result t tagName instance) attrs (cur, 0) w)
      ++ JS.substring (html t) (Some last) (Some off)
         :: ("<!--lit-bindings " +:+ pretty i +:+ "-->") :: rest.
Proof.
  intros Hstep Hparts Hattrs Hbound.
  destruct (handleAttrs_bound_lastOffset _ _ _ _ _ _ _ _ _ _ _ Hattrs Hbound) as [last Hlast].
  destruct (handleAttrs_cursor ext result t tagName instance i attrs _ _ _ _ _ Hattrs)
    as (Htpi & _ & Hn).
  destruct (templatePartAt_own ext t ps more i attrs cur cur1 Hstep Hparts Htpi)
    as (p & Hp & Hindex); [lia|].
  exists last. unfold elementBody.
  rewrite (bind_of_done _ _ _ _ Hattrs). simpl.
  assert (Hpos : (0 <? n)%nat = true) by (apply Nat.ltb_lt; exact Hbound).
  rewrite Hpos, orb_true_r.
  unfold bind at 1. unfold bind at 1. unfold flushTo. rewrite Hlast. simpl.
  unfold bind at 1. simpl. rewrite Hp. simpl. rewrite Hindex.
  eexists. split; reflexivity.
Qed.

Lemma bindings_comment_carries_node_index_witness :
  exists last rest,
    Some 88 = Some last /\
    chunks (elementBody Sample.ext (renderValue Sample.ext 2) (Sample.card Sample.cardValues)
              (parseTemplate Sample.ext (Sample.card Sample.cardValues)) "x-card"
              [Sample.titleAttr; Sample.clickAttr; Sample.classAttr] 89 None true
              initialCursor Example.emptyWorld) =
      chunks (foldGen (handleAttr Sample.ext (Sample.card Sample.cardValues)
                         (parseTemplate Sample.ext (Sample.card Sample.cardValues))
                         "x-card" None)
                [Sample.titleAttr; Sample.clickAttr; Sample.classAttr] (initialCursor, 0)
                Example.emptyWorld)
      ++ JS.substring Sample.cardHtml (Some last) (Some 89)
         :: ("<!--lit-bindings " +:+ pretty 0%Z +:+ "-->") :: rest.
Proof.
  apply (bindings_comment_carries_node_index Sample.ext (renderValue Sample.ext 2)
           (Sample.card Sample.cardValues)
           (parseTemplate Sample.ext (Sample.card Sample.cardValues))
           [] [NodePart 1] 0 "x-card"
           [Sample.titleAttr; Sample.clickAttr; Sample.classAttr] 89 None true
           initialCursor {| partIndex := 4; templatePartIndex := 2; lastOffset := Some 88 |}
           3 Example.emptyWorld).
  - split; reflexivity.
  - vm_compute. reflexivity.
  - vm_compute. reflexivity.
  - lia.
Defined.

(** ** The bindings comment always finds its part *)




Section Safety.

Variable ext : Externals.
Variable self : value -> Gen unit.
Variable result : TemplateResult.
Variable t : ParsedTemplate.

Hypothesis self_finds_parts : forall v w, completion (self v w) <> Throw missingPart.







End Safety.



(** With a part list out of step the lookup does fail: the template of
    [x-card] paired with an empty part list. *)
Example bindings_comment_without_part :
  completion (renderChildNodes Sample.ext (fun _ => yield "value")
                (Sample.card Sample.cardValues)
                {| html := Sample.cardHtml; ast := Sample.cardAst; parts := [] |}
                [Sample.cardNode] Example.emptyWorld) = Throw missingPart.
Proof. vm_compute. reflexivity. Qed.

(** ** The template cache across a render *)

Lemma cacheGrows_same (ext : Externals) (w w' : World) :
  templateCache w' = templateCache w -> cacheGrows ext w w'.
Proof.
  intros Heq. split; intros k t Hk.
  - rewrite Heq. exact Hk.
  - left. rewrite <- Heq. exact Hk.
Qed.

Lemma cacheGrows_trans (ext : Externals) (w1 w2 w3 : World) :
  cacheGrows ext w1 w2 -> cacheGrows ext w2 w3 -> cacheGrows ext w1 w3.
Proof.
  intros [Hkeep12 Hnew12] [Hkeep23 Hnew23]. split; intros k t Hk.
  - apply Hkeep23, Hkeep12, Hk.
  - destruct (Hnew23 k t Hk) as [Hold|Hnew]; [apply Hnew12, Hold|right; exact Hnew].
Qed.

Section Cache.

Variable ext : Externals.

Lemma preservesCache_same {A} (m : Gen A) :
  (forall w, templateCache (world (m w)) = templateCache w) -> preservesCache ext m.
Proof. intros Hsame w. apply cacheGrows_same, Hsame. Qed.

Lemma preservesCache_bind {A B} (m : Gen A) (k : A -> Gen B) :
  preservesCache ext m -> (forall a, preservesCache ext (k a)) -> preservesCache ext (bind m k).
Proof.
  intros Hm Hk w. unfold bind.
  destruct (completion (m w)) as [a|e|]; simpl; [|apply Hm|apply Hm].
  eapply cacheGrows_trans; [apply Hm|apply Hk].
Qed.

Lemma preservesCache_lift {A} (r : Exn + A) : preservesCache ext (lift r).
Proof. apply preservesCache_same. intros w. destruct r; reflexivity. Qed.

Lemma preservesCache_foldGen {S A} (f : S -> A -> Gen S) :
  (forall s x, preservesCache ext (f s x)) -> forall l s, preservesCache ext (foldGen f l s).
Proof.
  intros Hf l. induction l as [|x l IH]; intros s; cbn [foldGen].
  - apply preservesCache_same. reflexivity.
  - apply preservesCache_bind; [apply Hf|apply IH].
Qed.

Lemma preservesCache_forEach {A} (f : A -> Gen unit) :
  (forall x, preservesCache ext (f x)) -> forall l, preservesCache ext (forEach f l).
Proof.
  intros Hf l. induction l as [|x l IH]; cbn [forEach].
  - apply preservesCache_same. reflexivity.
  - apply preservesCache_bind; [apply Hf|intros _; apply IH].
Qed.

Lemma getTemplate_preservesCache (result : TemplateResult) :
  preservesCache ext (getTemplate ext result).
Proof.
  intros w. unfold getTemplate.
  destruct (templateCache w !! ident (strings result)) as [t|] eqn:Hcached;
    cbn [world templateCache setCache].
  - apply cacheGrows_same. reflexivity.
  - split; intros k t Hk; unfold setCache in *; cbn [templateCache] in *.
    + rewrite lookup_insert_ne; [exact Hk|]. intros Heq. rewrite <- Heq, Hcached in Hk. discriminate.
    + destruct (decide (ident (strings result) = k)) as [<-|Hne].
      * rewrite lookup_insert_eq in Hk. injection Hk as <-.
        right. exists result. split; reflexivity.
      * rewrite lookup_insert_ne in Hk by exact Hne. left. exact Hk.
Qed.

Lemma handleBinding_cache (result : TemplateResult) (tagName : string)
    (instance : option nat) (attr : Attribute) (name attributeName : string)
    (statics : list string) (cur : Cursor) (w : World) :
  templateCache (world (handleBinding ext result tagName instance attr name attributeName
                                      statics cur w)) = templateCache w /\
  instances (world (handleBinding ext result tagName instance attr name attributeName
                                  statics cur w)) = instances w.
Proof.
  unfold handleBinding.
  destruct (JS.startsWith name ".").
  { destruct (bool_decide (length statics = 2)); destruct instance;
      destruct (reflectedAttributeName ext tagName (JS.tail name)); split; reflexivity. }
  destruct (JS.startsWith name "@"); [split; reflexivity|].
  destruct (JS.startsWith name "?"); [|split; reflexivity].
  destruct (bool_decide (statics = [""; ""])); [|split; reflexivity].
  destruct (truthy (default VUndefined (values result !! partIndex cur))); split; reflexivity.
Qed.

Lemma instantiate_cache (tagName : string) (w : World) :
  templateCache (world (instantiate ext tagName w)) = templateCache w.
Proof.
  unfold instantiate. destruct (JS.includesChar "-"%char tagName); [|reflexivity].
  destruct (customElements ext tagName) as [ctor|]; [|reflexivity].
  destruct (ctorThrows ctor); [reflexivity|].
  unfold bind, allocate, getWorld. simpl.
  destruct (storeInstance _ _); reflexivity.
Qed.

Section Walk.

Variable self : value -> Gen unit.
Variable result : TemplateResult.
Variable template : ParsedTemplate.

Hypothesis self_preservesCache : forall v, preservesCache ext (self v).

Lemma handleAttr_preservesCache (tagName : string) (instance : option nat)
    (acc : Cursor * nat) (attr : Attribute) :
  preservesCache ext (handleAttr ext result template tagName instance acc attr).
Proof.
  destruct acc as [cur n]. unfold handleAttr.
  destruct (JS.endsWith (attr_name attr) "$lit$");
    [|apply preservesCache_same; reflexivity].
  destruct (lastAttributeName ext _) as [name|]; [|apply preservesCache_same; reflexivity].
  apply preservesCache_bind; [apply preservesCache_same; reflexivity|]. intros _.
  apply preservesCache_bind.
  { apply preservesCache_same. intros w. apply handleBinding_cache. }
  intros cur1. apply preservesCache_bind; [apply preservesCache_lift|].
  intros cur2. apply preservesCache_same. reflexivity.
Qed.

Lemma elementBody_preservesCache (tagName : string) (attrs : list Attribute) (off : nat)
    (instance : option nat) (writeTag : bool) (cur : Cursor) :
  preservesCache ext (elementBody ext self result template tagName attrs off instance writeTag cur).
Proof.
  unfold elementBody. apply preservesCache_bind.
  { apply preservesCache_foldGen. intros s x. apply handleAttr_preservesCache. }
  intros [cur1 n]. apply preservesCache_bind.
  { destruct (writeTag || (0 <? n)%nat); [|apply preservesCache_same; reflexivity].
    apply preservesCache_bind; [apply preservesCache_lift|].
    intros [chunk cur2]. apply preservesCache_same. reflexivity. }
  intros cur2. apply preservesCache_bind.
  { destruct (0 <? n)%nat; [destruct (templatePartAt template _)|];
      apply preservesCache_same; reflexivity. }
  intros _. apply preservesCache_bind; [|intros _; apply preservesCache_same; reflexivity].
  destruct instance as [l|]; [|apply preservesCache_same; reflexivity].
  unfold renderElement. apply preservesCache_bind; [apply preservesCache_same; reflexivity|].
  intros w0. destruct (heap w0 !! l);
    [apply self_preservesCache|apply preservesCache_same; reflexivity].
Qed.

Lemma handleNode_preservesCache (cur : Cursor) (node : Node) :
  preservesCache ext (handleNode ext self result template cur node).
Proof.
  destruct node as [cs|tagName attrs off cs|data so eo|text]; cbn [handleNode];
    try (apply preservesCache_same; reflexivity).
  - apply preservesCache_bind.
    + apply preservesCache_same. intros w. apply instantiate_cache.
    + intros [instance writeTag]. apply elementBody_preservesCache.
  - destruct (bool_decide (data = marker (rnd ext)));
      [|apply preservesCache_same; reflexivity].
    apply preservesCache_bind; [apply preservesCache_lift|]. intros [chunk cur1].
    apply preservesCache_bind; [apply preservesCache_same; reflexivity|]. intros _.
    apply preservesCache_bind; [apply preservesCache_lift|]. intros cur2.
    apply preservesCache_bind; [apply self_preservesCache|].
    intros _. apply preservesCache_same. reflexivity.
Qed.

Lemma renderTopLevelNode_preservesCache (cur : Cursor) (node : Node) :
  preservesCache ext (renderTopLevelNode ext self result template cur node).
Proof.
  unfold renderTopLevelNode.
  apply preservesCache_bind.
  { destruct node; apply preservesCache_same; reflexivity. }
  intros _. apply preservesCache_bind.
  { apply preservesCache_same. intros w. simpl. rewrite traverse_balanced. reflexivity. }
  intros _. apply preservesCache_bind.
  { apply preservesCache_foldGen. intros s x. apply handleNode_preservesCache. }
  intros cur1. apply preservesCache_bind; [|intros _; apply preservesCache_same; reflexivity].
  destruct (isElement node); apply preservesCache_same; reflexivity.
Qed.

End Walk.

Lemma renderTemplateResultWith_preservesCache (self : value -> Gen unit)
    (result : TemplateResult) :
  (forall v, preservesCache ext (self v)) ->
  preservesCache ext (renderTemplateResultWith ext self result).
Proof.
  intros Hself. unfold renderTemplateResultWith.
  apply preservesCache_bind; [apply getTemplate_preservesCache|]. intros t.
  destruct (getChildNodes (ast t)) as [nodes|]; [|apply preservesCache_same; reflexivity].
  apply preservesCache_bind.
  { apply preservesCache_foldGen. intros s x.
    apply renderTopLevelNode_preservesCache, Hself. }
  intros cur. unfold finish.
  apply preservesCache_bind; [apply preservesCache_lift|]. intros [chunk cur1].
  apply preservesCache_bind; [apply preservesCache_same; reflexivity|]. intros _.
  destruct (bool_decide _); apply preservesCache_same; reflexivity.
Qed.

Lemma renderValueWith_preservesCache (self : value -> Gen unit) (v : value) :
  (forall v', preservesCache ext (self v')) -> preservesCache ext (renderValueWith ext self v).
Proof.
  intros Hself. unfold renderValueWith.
  apply preservesCache_bind; [|intros _; apply preservesCache_same; reflexivity].
  destruct v; try (apply preservesCache_same; reflexivity).
  - apply preservesCache_bind; [apply preservesCache_same; reflexivity|]. intros _.
    apply preservesCache_forEach, Hself.
  - apply preservesCache_bind; [apply preservesCache_same; reflexivity|]. intros _.
    apply preservesCache_bind; [|intros _; apply preservesCache_same; reflexivity].
    apply renderTemplateResultWith_preservesCache, Hself.
  - apply preservesCache_bind; [apply preservesCache_same; reflexivity|]. intros _.
    apply preservesCache_same. intros w. unfold bind, getWorld. simpl.
    destruct (producer (instances w)) as [out [e|]]; reflexivity.
  - apply preservesCache_bind; [apply preservesCache_same; reflexivity|]. intros _.
    unfold renderLight. apply preservesCache_bind; [apply preservesCache_same; reflexivity|].
    intros w0. destruct (last (instances w0)) as [frame|];
      [|apply preservesCache_same; reflexivity].
    destruct (frame_instance frame) as [l|]; [|apply preservesCache_same; reflexivity].
    destruct (heap w0 !! l); [apply Hself|apply preservesCache_same; reflexivity].
Qed.

Lemma renderValue_preservesCache (fuel : nat) :
  forall v, preservesCache ext (renderValue ext fuel v).
Proof.
  induction fuel as [|fuel IH]; intros v; cbn [renderValue].
  - apply preservesCache_same. reflexivity.
  - apply renderValueWith_preservesCache, IH.
Qed.

Lemma render_preservesCache (fuel : nat) (v : value) : preservesCache ext (render ext fuel v).
Proof.
  unfold render. apply preservesCache_bind; [apply preservesCache_same; reflexivity|].
  intros _. apply renderValue_preservesCache.
Qed.

End Cache.

(** A template prepared once stays in the cache, unchanged, through every
    later render, whether that render completes or throws. *)
Theorem render_keeps_cached_templates (ext : Externals) (fuel : nat) (v : value) (w : World)
    (k : nat) (t : ParsedTemplate) :
  templateCache w !! k = Some t ->
  templateCache (world (render ext fuel v w)) !! k = Some t.
Proof. intros Hk. apply (render_preservesCache ext fuel v w), Hk. Qed.

Lemma render_keeps_cached_templates_witness :
  templateCache
    (world (render Example.ext 2 (VTemplateResult Example.bad)
              (world (render Example.ext 2 (VTemplateResult (Example.hello [VStr "you"]))
                        Example.emptyWorld))))
    !! ident (strings (Example.hello [VStr "you"]))
  = Some (parseTemplate Example.ext (Example.hello [VStr "you"])).
Proof.
  apply (render_keeps_cached_templates Example.ext 2 (VTemplateResult Example.bad)
           (world (render Example.ext 2 (VTemplateResult (Example.hello [VStr "you"]))
                     Example.emptyWorld))).
  vm_compute. reflexivity.
Defined.



(** ** The frame stack across a completed render *)

Lemma sameStack_same (w w' : World) : instances w' = instances w -> sameStack w w'.
Proof. intros Heq. unfold sameStack. rewrite Heq. split; reflexivity. Qed.

Lemma sameStack_trans (w1 w2 w3 : World) :
  sameStack w1 w2 -> sameStack w2 w3 -> sameStack w1 w3.
Proof.
  intros [Hbelow12 Htags12] [Hbelow23 Htags23]. split.
  - rewrite Hbelow23. exact Hbelow12.
  - rewrite Htags23. exact Htags12.
Qed.

Lemma storeInstance_sameStack (l : nat) (fs fs' : list Frame) :
  storeInstance l fs = inr fs' ->
  removelast fs' = removelast fs /\ map frame_tagName fs' = map frame_tagName fs.
Proof.
  unfold storeInstance. destruct (last fs) as [top|] eqn:Htop; [|discriminate].
  intros Hstore. injection Hstore as <-.
  apply last_Some in Htop. destruct Htop as [below ->].
  replace (length (below ++ [top]) - 1) with (length below + 0)
    by (rewrite length_app; simpl; lia).
  rewrite alter_app_r. simpl. rewrite !removelast_last, !map_app. split; reflexivity.
Qed.

Lemma balanced_same {A} (m : Gen A) :
  (forall w, instances (world (m w)) = instances w) -> balanced m.
Proof. intros Hsame w a _. apply sameStack_same, Hsame. Qed.

Lemma balanced_bind {A B} (m : Gen A) (k : A -> Gen B) :
  balanced m -> (forall a, balanced (k a)) -> balanced (bind m k).
Proof.
  intros Hm Hk w b Hdone.
  apply bind_done in Hdone. destruct Hdone as (a & Hfirst & Hrest & _ & ->).
  eapply sameStack_trans; [apply (Hm w a Hfirst)|apply (Hk a _ b Hrest)].
Qed.

Lemma balanced_lift {A} (r : Exn + A) : balanced (lift r).
Proof. apply balanced_same. intros w. destruct r; reflexivity. Qed.

Lemma balanced_foldGen {S A} (f : S -> A -> Gen S) :
  (forall s x, balanced (f s x)) -> forall l s, balanced (foldGen f l s).
Proof.
  intros Hf l. induction l as [|x l IH]; intros s; cbn [foldGen].
  - apply balanced_same. reflexivity.
  - apply balanced_bind; [apply Hf|apply IH].
Qed.

Lemma balanced_forEach {A} (f : A -> Gen unit) :
  (forall x, balanced (f x)) -> forall l, balanced (forEach f l).
Proof.
  intros Hf l. induction l as [|x l IH]; cbn [forEach].
  - apply balanced_same. reflexivity.
  - apply balanced_bind; [apply Hf|intros _; apply IH].
Qed.

Lemma instantiate_balanced (ext : Externals) (tagName : string) :
  balanced (instantiate ext tagName).
Proof.
  intros w a _. unfold instantiate.
  destruct (JS.includesChar "-"%char tagName); [|apply sameStack_same; reflexivity].
  destruct (customElements ext tagName) as [ctor|]; [|apply sameStack_same; reflexivity].
  destruct (ctorThrows ctor); [apply sameStack_same; reflexivity|].
  unfold bind, allocate, getWorld. simpl.
  destruct (storeInstance _ _) as [e|fs] eqn:Hstore; [apply sameStack_same; reflexivity|].
  apply storeInstance_sameStack in Hstore. exact Hstore.
Qed.

Section Stack.

Variable ext : Externals.
Variable self : value -> Gen unit.
Variable result : TemplateResult.
Variable template : ParsedTemplate.

Hypothesis self_balanced : forall v, balanced (self v).

Lemma handleAttr_balanced (tagName : string) (instance : option nat)
    (acc : Cursor * nat) (attr : Attribute) :
  balanced (handleAttr ext result template tagName instance acc attr).
Proof.
  destruct acc as [cur n]. unfold handleAttr.
  destruct (JS.endsWith (attr_name attr) "$lit$"); [|apply balanced_same; reflexivity].
  destruct (lastAttributeName ext _) as [name|]; [|apply balanced_same; reflexivity].
  apply balanced_bind; [apply balanced_same; reflexivity|]. intros _.
  apply balanced_bind.
  { apply balanced_same. intros w. apply handleBinding_cache. }
  intros cur1. apply balanced_bind; [apply balanced_lift|].
  intros cur2. apply balanced_same. reflexivity.
Qed.

Lemma elementBody_balanced (tagName : string) (attrs : list Attribute) (off : nat)
    (instance : option nat) (writeTag : bool) (cur : Cursor) :
  balanced (elementBody ext self result template tagName attrs off instance writeTag cur).
Proof.
  unfold elementBody. apply balanced_bind.
  { apply balanced_foldGen. intros s x. apply handleAttr_balanced. }
  intros [cur1 n]. apply balanced_bind.
  { destruct (writeTag || (0 <? n)%nat); [|apply balanced_same; reflexivity].
    apply balanced_bind; [apply balanced_lift|].
    intros [chunk cur2]. apply balanced_same. reflexivity. }
  intros cur2. apply balanced_bind.
  { destruct (0 <? n)%nat; [destruct (templatePartAt template _)|];
      apply balanced_same; reflexivity. }
  intros _. apply balanced_bind; [|intros _; apply balanced_same; reflexivity].
  destruct instance as [l|]; [|apply balanced_same; reflexivity].
  unfold renderElement. apply balanced_bind; [apply balanced_same; reflexivity|].
  intros w0. destruct (heap w0 !! l); [apply self_balanced|apply balanced_same; reflexivity].
Qed.

Lemma handleNode_balanced (cur : Cursor) (node : Node) :
  balanced (handleNode ext self result template cur node).
Proof.
  destruct node as [cs|tagName attrs off cs|data so eo|text]; cbn [handleNode];
    try (apply balanced_same; reflexivity).
  - apply balanced_bind; [apply instantiate_balanced|].
    intros [instance writeTag]. apply elementBody_balanced.
  - destruct (bool_decide (data = marker (rnd ext))); [|apply balanced_same; reflexivity].
    apply balanced_bind; [apply balanced_lift|]. intros [chunk cur1].
    apply balanced_bind; [apply balanced_same; reflexivity|]. intros _.
    apply balanced_bind; [apply balanced_lift|]. intros cur2.
    apply balanced_bind; [apply self_balanced|].
    intros _. apply balanced_same. reflexivity.
Qed.

(** The frame a top-level element pushes is the one it pops: the stack is
    handed back as it was received. *)
Lemma renderTopLevelNode_balanced (cur : Cursor) (node : Node) :
  balanced (renderTopLevelNode ext self result template cur node).
Proof.
  intros w cur' Hdone. rewrite renderTopLevelNode_frames in Hdone |- *.
  apply bind_done in Hdone. destruct Hdone as (cur1 & Hwalk & _ & _ & ->).
  apply (balanced_foldGen _ handleNode_balanced) in Hwalk.
  destruct node as [cs|tagName attrs off cs|data so eo|text]; cbn [isElement] in *;
    try exact Hwalk.
  apply sameStack_same. destruct Hwalk as [Hbelow _].
  set (w2 := world (foldGen _ _ _ _)) in *.
  change (removelast (instances w2) = instances w).
  rewrite Hbelow. unfold pushFrame, setInstances. cbn [instances]. apply removelast_last.
Qed.

End Stack.

Lemma renderValueWith_balanced (ext : Externals) (self : value -> Gen unit) (v : value) :
  (forall v', balanced (self v')) -> balanced (renderValueWith ext self v).
Proof.
  intros Hself. unfold renderValueWith.
  apply balanced_bind; [|intros _; apply balanced_same; reflexivity].
  destruct v; try (apply balanced_same; reflexivity).
  - apply balanced_bind; [apply balanced_same; reflexivity|]. intros _.
    apply balanced_forEach, Hself.
  - apply balanced_bind; [apply balanced_same; reflexivity|]. intros _.
    apply balanced_bind; [|intros _; apply balanced_same; reflexivity].
    unfold renderTemplateResultWith. apply balanced_bind.
    { apply balanced_same. intros w.
      destruct (getTemplate_run ext r w) as (t & _ & _ & Hsame & _). exact Hsame. }
    intros t. destruct (getChildNodes (ast t)) as [nodes|];
      [|apply balanced_same; reflexivity].
    apply balanced_bind.
    { apply balanced_foldGen. intros s x. apply renderTopLevelNode_balanced, Hself. }
    intros cur. unfold finish.
    apply balanced_bind; [apply balanced_lift|]. intros [chunk cur1].
    apply balanced_bind; [apply balanced_same; reflexivity|]. intros _.
    destruct (bool_decide _); apply balanced_same; reflexivity.
  - apply balanced_bind; [apply balanced_same; reflexivity|]. intros _.
    apply balanced_same. intros w. unfold bind, getWorld. simpl.
    destruct (producer (instances w)) as [out [e|]]; reflexivity.
  - apply balanced_bind; [apply balanced_same; reflexivity|]. intros _.
    unfold renderLight. apply balanced_bind; [apply balanced_same; reflexivity|].
    intros w0. destruct (last (instances w0)) as [frame|];
      [|apply balanced_same; reflexivity].
    destruct (frame_instance frame) as [l|]; [|apply balanced_same; reflexivity].
    destruct (heap w0 !! l); [apply Hself|apply balanced_same; reflexivity].
Qed.

Lemma renderValue_balanced (ext : Externals) (fuel : nat) :
  forall v, balanced (renderValue ext fuel v).
Proof.
  induction fuel as [|fuel IH]; intros v; cbn [renderValue].
  - apply balanced_same. reflexivity.
  - apply renderValueWith_balanced, IH.
Qed.

(** A value rendered to completion, at any depth of nesting, hands the frame
    stack back with every frame below the top untouched and the same tag
    names throughout: each frame pushed for an element has been popped. *)
Theorem completed_render_restores_frames (ext : Externals) (fuel : nat) (v : value)
    (w : World) :
  completion (renderValue ext fuel v w) = Done tt ->
  removelast (instances (world (renderValue ext fuel v w))) = removelast (instances w) /\
  map frame_tagName (instances (world (renderValue ext fuel v w)))
    = map frame_tagName (instances w).
Proof. intros Hdone. apply (renderValue_balanced ext fuel v w tt Hdone). Qed.

Lemma completed_render_restores_frames_witness :
  removelast (instances (world (renderValue Example.ext 3 (VTemplateResult Example.nested)
                                  (pushFrame "x-outer" Example.emptyWorld))))
    = removelast (instances (pushFrame "x-outer" Example.emptyWorld)) /\
  map frame_tagName
      (instances (world (renderValue Example.ext 3 (VTemplateResult Example.nested)
                           (pushFrame "x-outer" Example.emptyWorld))))
    = map frame_tagName (instances (pushFrame "x-outer" Example.emptyWorld)).
Proof.
  apply (completed_render_restores_frames Example.ext 3 (VTemplateResult Example.nested)
           (pushFrame "x-outer" Example.emptyWorld)).
  vm_compute. reflexivity.
Defined.

(** ** The scoped style sheets *)

Lemma Styles_induction (P : Styles -> Prop) :
  P NoStyles ->
  (forall cssText, P (CSSResult cssText)) ->
  P OtherStyle ->
  (forall items, Forall P items -> P (StyleArray items)) ->
  forall styles, P styles.
Proof.
  intros Hnone Hcss Hother Harray.
  fix IH 1. intros [|cssText| |items].
  - exact Hnone.
  - apply Hcss.
  - exact Hother.
  - apply Harray. induction items as [|s items IHitems]; constructor; [apply IH|exact IHitems].
Qed.

Section ScopedStyles.

Variable css : string -> string -> string.

Lemma scoped_fold (tagName : string) (l : list Styles) :
  forall scopedStyles,
    fold_left (fun scopedStyles style =>
                 match style with
                 | CSSResult cssText => scopedStyles ++ [css cssText tagName]
                 | _ => scopedStyles
                 end) l scopedStyles
    = scopedStyles ++ flat_map (fun style => match style with
                                             | CSSResult cssText => [css cssText tagName]
                                             | _ => []
                                             end) l.
Proof.
  induction l as [|style l IH]; intros scopedStyles; cbn [fold_left flat_map].
  - symmetry. apply app_nil_r.
  - rewrite IH. destruct style; cbn [app]; try reflexivity.
    rewrite <- app_assoc. reflexivity.
Qed.

Lemma flat_cssTextsOf (tagName : string) (styles : Styles) :
  flat_map (fun style => match style with
                         | CSSResult cssText => [css cssText tagName]
                         | _ => []
                         end) (flat styles)
  = map (fun cssText => css cssText tagName) (cssTextsOf styles).
Proof.
  induction styles as [|cssText| |items IH] using Styles_induction; try reflexivity.
  cbn [flat cssTextsOf].
  induction IH as [|s items Hs _ IHitems]; [reflexivity|].
  cbn [flat_map]. rewrite flat_map_app, map_app, Hs, IHitems. reflexivity.
Qed.

Lemma getScopedStyles_from (definitions : list (string * Styles)) :
  forall scopedStyles,
    fold_left
      (fun scopedStyles '(tagName, ctorStyles) =>
         fold_left
           (fun scopedStyles style =>
              match style with
              | CSSResult cssText => scopedStyles ++ [css cssText tagName]
              | _ => scopedStyles
              end)
           (flat ctorStyles) scopedStyles)
      definitions scopedStyles
    = scopedStyles ++
      flat_map (fun '(tagName, ctorStyles) =>
                  map (fun cssText => css cssText tagName) (cssTextsOf ctorStyles))
               definitions.
Proof.
  induction definitions as [|[tagName ctorStyles] definitions IH]; intros scopedStyles;
    cbn [fold_left flat_map].
  - symmetry. apply app_nil_r.
  - rewrite IH, scoped_fold, flat_cssTextsOf, <- app_assoc. reflexivity.
Qed.

Lemma getScopedStyles_flat_map (definitions : list (string * Styles)) :
  getScopedStyles css definitions
  = flat_map (fun '(tagName, ctorStyles) =>
                map (fun cssText => css cssText tagName) (cssTextsOf ctorStyles))
             definitions.
Proof. unfold getScopedStyles. rewrite getScopedStyles_from. reflexivity. Qed.

Lemma holds_cssTextsOf (cssText : string) (styles : Styles) :
  holds cssText styles <-> In cssText (cssTextsOf styles).
Proof.
  induction styles as [|c| |items IH] using Styles_induction; cbn [cssTextsOf].
  - split; [intros H; inversion H|intros []].
  - split.
    + intros H. inversion H. left. reflexivity.
    + intros [->|[]]. constructor.
  - split; [intros H; inversion H|intros []].
  - rewrite in_flat_map. split.
    + intros H. inversion H as [|items' style Hin Hheld]; subst.
      exists style. split; [exact Hin|].
      rewrite List.Forall_forall in IH. apply (IH style Hin), Hheld.
    + intros (style & Hin & Htext).
      apply (holds_in cssText items style Hin).
      rewrite List.Forall_forall in IH. apply (IH style Hin), Htext.
Qed.

End ScopedStyles.

(** The sheets returned are exactly the [CSSResult]s of the registered
    element classes, each scoped with the tag name of its element, however
    deep in nested arrays it sits; styles that are no [CSSResult] give
    nothing. *)
Theorem getScopedStyles_scopes_every_CSSResult (css : string -> string -> string)
    (definitions : list (string * Styles)) (sheet : string) :
  In sheet (getScopedStyles css definitions) <->
  exists tagName ctorStyles cssText,
    In (tagName, ctorStyles) definitions /\
    holds cssText ctorStyles /\
    sheet = css cssText tagName.
Proof.
  rewrite getScopedStyles_flat_map, in_flat_map. split.
  - intros ([tagName ctorStyles] & Hin & Hsheet).
    apply in_map_iff in Hsheet. destruct Hsheet as (cssText & <- & Htext).
    exists tagName, ctorStyles, cssText. split; [exact Hin|].
    split; [apply holds_cssTextsOf, Htext|reflexivity].
  - intros (tagName & ctorStyles & cssText & Hin & Hheld & ->).
    exists (tagName, ctorStyles). split; [exact Hin|].
    apply in_map_iff. exists cssText. split; [reflexivity|apply holds_cssTextsOf, Hheld].
Qed.

(** The sheets come in the order of registration: those of the elements
    registered first precede those of the elements registered after them. *)
Theorem getScopedStyles_in_registration_order (css : string -> string -> string)
    (earlier later : list (string * Styles)) :
  getScopedStyles css (earlier ++ later)
  = getScopedStyles css earlier ++ getScopedStyles css later.
Proof. rewrite !getScopedStyles_flat_map. apply flat_map_app. Qed.

(** ** The stream of a render *)

Lemma reads_chunks (cs : list string) :
  forall (pending : option Exn) (out : list (option string)) (es : list Exn),
    reads generatorNext (length cs) (mkReadable (cs, pending) out es)
    = mkReadable ([], pending) (out ++ map Some cs) es.
Proof.
  induction cs as [|c cs IH]; intros pending out es; cbn [length reads map].
  - rewrite app_nil_r. reflexivity.
  - unfold _read. cbn [_iterator generatorNext pushed errorEvents].
    rewrite IH, <- app_assoc. reflexivity.
Qed.

Lemma reads_add {T S} (next : S -> (Exn + option T) * S) (n m : nat) (r : Readable T S) :
  reads next (n + m) r = reads next m (reads next n r).
Proof.
  revert r. induction n as [|n IH]; intros r; cbn [Nat.add reads]; [reflexivity|apply IH].
Qed.

(** Read to its end, the stream over a render that completes has been
    handed the chunks of the render, in order, and then the end of the
    stream; no error is emitted. *)
Theorem stream_of_completed_render (ext : Externals) (fuel : nat) (v : value) (w : World) :
  completion (render ext fuel v w) = Done tt ->
  reads generatorNext (length (chunks (render ext fuel v w)) + 1)
        (IterableReader (generatorOf (render ext fuel v w)))
  = mkReadable ([], None) (map Some (chunks (render ext fuel v w)) ++ [None]) [].
Proof.
  intros Hdone. unfold IterableReader, generatorOf. rewrite Hdone, reads_add, reads_chunks.
  reflexivity.
Qed.

Lemma stream_of_completed_render_witness :
  reads generatorNext
        (length (chunks (render Example.ext 2 (VTemplateResult (Example.hello [VStr "you"]))
                           Example.emptyWorld)) + 1)
        (IterableReader
           (generatorOf (render Example.ext 2 (VTemplateResult (Example.hello [VStr "you"]))
                           Example.emptyWorld)))
  = mkReadable ([], None)
      (map Some (chunks (render Example.ext 2 (VTemplateResult (Example.hello [VStr "you"]))
                           Example.emptyWorld)) ++ [None]) [].
Proof.
  apply (stream_of_completed_render Example.ext 2
           (VTemplateResult (Example.hello [VStr "you"])) Example.emptyWorld).
  vm_compute. reflexivity.
Defined.

(** When the render throws, the stream has been handed the chunks yielded
    before the exception and emits it as one ['error'] event; the end of the
    stream is pushed by the read after that. *)
Theorem stream_of_throwing_render (ext : Externals) (fuel : nat) (v : value) (w : World)
    (e : Exn) :
  completion (render ext fuel v w) = Throw e ->
  reads generatorNext (length (chunks (render ext fuel v w)) + 1)
        (IterableReader (generatorOf (render ext fuel v w)))
  = mkReadable ([], None) (map Some (chunks (render ext fuel v w))) [e] /\
  reads generatorNext (length (chunks (render ext fuel v w)) + 2)
        (IterableReader (generatorOf (render ext fuel v w)))
  = mkReadable ([], None) (map Some (chunks (render ext fuel v w)) ++ [None]) [e].
Proof.
  intros Hthrow. unfold IterableReader, generatorOf.
  rewrite Hthrow, !reads_add, reads_chunks. split; reflexivity.
Qed.

Lemma stream_of_throwing_render_witness :
  reads generatorNext
        (length (chunks (render Example.ext 2 (VTemplateResult (Example.hello []))
                           Example.emptyWorld)) + 1)
        (IterableReader
           (generatorOf (render Example.ext 2 (VTemplateResult (Example.hello []))
                           Example.emptyWorld)))
  = mkReadable ([], None)
      (map Some (chunks (render Example.ext 2 (VTemplateResult (Example.hello []))
                           Example.emptyWorld))) [FinalPartIndex 1 0] /\
  reads generatorNext
        (length (chunks (render Example.ext 2 (VTemplateResult (Example.hello []))
                           Example.emptyWorld)) + 2)
        (IterableReader
           (generatorOf (render Example.ext 2 (VTemplateResult (Example.hello []))
                           Example.emptyWorld)))
  = mkReadable ([], None)
      (map Some (chunks (render Example.ext 2 (VTemplateResult (Example.hello []))
                           Example.emptyWorld)) ++ [None]) [FinalPartIndex 1 0].
Proof.
  apply (stream_of_throwing_render Example.ext 2 (VTemplateResult (Example.hello []))
           Example.emptyWorld (FinalPartIndex 1 0)).
  vm_compute. reflexivity.
Defined.

(** ** Templates with child bindings only *)

Lemma concat_cons (x : string) (l : list string) :
  String.concat "" (x :: l) = x +:+ String.concat "" l.
Proof. destruct l; [symmetry; apply string_app_nil_r|reflexivity]. Qed.

Lemma concat_app (l1 l2 : list string) :
  String.concat "" (l1 ++ l2) = String.concat "" l1 +:+ String.concat "" l2.
Proof.
  induction l1 as [|x l1 IH]; [reflexivity|].
  change ((x :: l1) ++ l2) with (x :: (l1 ++ l2)).
  rewrite !concat_cons, IH. symmetry. apply string_app_assoc.
Qed.

Lemma renderValue_leaf_run (ext : Externals) (fuel : nat) (v : value) :
  leafValue v = true ->
  exists cs,
    String.concat "" cs = wrapped ext v /\
    forall w, renderValue ext (S fuel) v w = mkRun cs w (Done tt).
Proof.
  intros Hleaf. destruct v; try discriminate Hleaf;
    match goal with
    | |- exists cs, _ /\ forall w, renderValue _ _ ?v w = _ =>
        first [ exists [opening v; closing]; split;
                [reflexivity|intros w; exact (renderValue_leaves ext fuel v w)]
              | exists [opening v; String_ ext v; closing]; split;
                [reflexivity|intros w; exact (renderValue_leaves ext fuel v w)] ]
    end.
Qed.

Lemma holesOf_app (ext : Externals) (l1 l2 : list Node) :
  holesOf ext (l1 ++ l2) = holesOf ext l1 ++ holesOf ext l2.
Proof. apply flat_map_app. Qed.

Lemma take_drop_step {A} (vals : list A) (i n : nat) (v : A) :
  vals !! i = Some v ->
  take (S n) (drop i vals) = v :: take n (drop (S i) vals).
Proof.
  revert i. induction vals as [|x vals IH]; intros [|i] Hv; try discriminate Hv.
  - injection Hv as ->. reflexivity.
  - apply (IH i Hv).
Qed.

Lemma take_drop_add {A} (vals : list A) (i n m : nat) :
  take (n + m) (drop i vals) = take n (drop i vals) ++ take m (drop (i + n) vals).
Proof.
  rewrite Nat.add_comm, <- drop_drop, (Nat.add_comm m n).
  rewrite <- (take_drop n (drop i vals)) at 1.
  destruct (Nat.le_gt_cases n (length (drop i vals))) as [Hle|Hgt].
  - rewrite take_app_add'; [reflexivity|]. rewrite length_take. lia.
  - rewrite (drop_ge (drop i vals) n) by lia.
    rewrite app_nil_r, take_nil, app_nil_r.
    rewrite !take_ge; try reflexivity; rewrite ?length_take; lia.
Qed.

Section ChildBindings.

Variable ext : Externals.
Variable fuel : nat.
Variable result : TemplateResult.
Variable t : ParsedTemplate.

Hypothesis leaves : forallb leafValue (values result) = true.

Lemma handleNode_marker (cur : Cursor) (from so eo : nat) (v : value) :
  lastOffset cur = Some from ->
  so <= eo ->
  values result !! partIndex cur = Some v ->
  exists cs,
    String.concat "" cs = JS.substring (html t) (Some from) (Some so) +:+ wrapped ext v /\
    forall w,
      handleNode ext (renderValue ext (S fuel)) result t cur
                 (CommentNode (marker (rnd ext)) so eo) w
      = mkRun cs w (Done {| partIndex := partIndex cur + 1;
                            templatePartIndex := (templatePartIndex cur + 1)%Z;
                            lastOffset := Some eo |}).
Proof.
  intros Hfrom Horder Hv.
  assert (Hleaf : leafValue v = true).
  { rewrite forallb_forall in leaves. apply leaves.
    apply list_elem_of_In. eapply list_elem_of_lookup_2. exact Hv. }
  destruct (renderValue_leaf_run ext fuel v Hleaf) as (cs & Hcs & Hrun).
  exists (JS.substring (html t) (Some from) (Some so) :: cs). split.
  - rewrite concat_cons, Hcs. reflexivity.
  - intros w. cbn [handleNode]. rewrite bool_decide_eq_true_2 by reflexivity.
    unfold flushTo. rewrite Hfrom. cbn [lift].
    unfold skipTo.
    rewrite (bind_silent _ _ w w (JS.substring (html t) (Some from) (Some so),
                                   setLastOffset (Some so) cur)) by reflexivity.
    cbn [setLastOffset lastOffset partIndex templatePartIndex].
    destruct (Nat.ltb_spec eo so) as [Hlt|_]; [lia|]. cbn [lift].
    unfold bind at 1. cbn [yield completion world chunks].
    rewrite (bind_silent _ _ w w {| partIndex := partIndex cur;
                                    templatePartIndex := templatePartIndex cur;
                                    lastOffset := Some eo |}) by reflexivity.
    cbn [partIndex]. rewrite Hv. cbn [default].
    unfold bind. rewrite Hrun. cbn. rewrite app_nil_r. reflexivity.
Qed.

Lemma handleNodes_filled (l : list Node) :
  forall (cur : Cursor) (from : nat),
    lastOffset cur = Some from ->
    forallb (childOnly ext) l = true ->
    forallb (fun '(so, eo) => so <=? eo)%nat (holesOf ext l) = true ->
    partIndex cur + length (holesOf ext l) <= length (values result) ->
    exists cs cur' from',
      (forall w, foldGen (handleNode ext (renderValue ext (S fuel)) result t) l cur w
                 = mkRun cs w (Done cur')) /\
      partIndex cur' = partIndex cur + length (holesOf ext l) /\
      lastOffset cur' = Some from' /\
      forall holes pieces,
        String.concat "" cs +:+ filled (html t) from' holes pieces
        = filled (html t) from (holesOf ext l ++ holes)
            (map (wrapped ext) (take (length (holesOf ext l))
                                     (drop (partIndex cur) (values result))) ++ pieces).
Proof.
  induction l as [|node l IH]; intros cur from Hfrom Hchild Hordered Hcount.
  - exists [], cur, from. split; [reflexivity|]. split; [cbn; lia|].
    split; [exact Hfrom|]. intros holes pieces. reflexivity.
  - cbn [forallb] in Hchild. apply andb_prop in Hchild. destruct Hchild as [Hnode Hrest].
    change (node :: l) with ([node] ++ l) in Hordered, Hcount |- *.
    rewrite holesOf_app in Hordered, Hcount |- *.
    rewrite forallb_app in Hordered. apply andb_prop in Hordered.
    destruct Hordered as [Hhere Hlater]. rewrite length_app in Hcount.
    assert (Hcase :
      (holesOf ext [node] = [] /\ inertNode ext node = true) \/
      exists so eo, node = CommentNode (marker (rnd ext)) so eo /\
                    holesOf ext [node] = [(so, eo)]).
    { destruct node as [cs|tagName attrs off cs|data so eo|text];
        try (left; split; [reflexivity|exact Hnode]).
      unfold holesOf. cbn [flat_map inertNode].
      destruct (bool_decide_reflect (data = marker (rnd ext))) as [->|Hne].
      - right. exists so, eo. split; reflexivity.
      - left. split; reflexivity. }
    destruct Hcase as [[Hnone Hinert]|(so & eo & -> & Hone)].
    + rewrite Hnone in *. cbn [app length] in *.
      destruct (IH cur from Hfrom Hrest Hlater Hcount) as (cs & cur' & from' & Hrun & Hrest').
      exists cs, cur', from'. split; [|exact Hrest'].
      intros w. cbn [foldGen].
      rewrite (bind_silent _ _ w w cur) by (apply handleNode_inert; exact Hinert).
      apply Hrun.
    + rewrite Hone in *. cbn [app length forallb] in *.
      apply andb_prop in Hhere. destruct Hhere as [Horder _].
      apply Nat.leb_le in Horder.
      destruct (lookup_lt_is_Some_2 (values result) (partIndex cur)) as [v Hv]; [lia|].
      destruct (handleNode_marker cur from so eo v Hfrom Horder Hv) as (cs1 & Hcs1 & Hrun1).
      set (cur1 := {| partIndex := partIndex cur + 1;
                      templatePartIndex := (templatePartIndex cur + 1)%Z;
                      lastOffset := Some eo |}) in *.
      destruct (IH cur1 eo eq_refl Hrest Hlater) as (cs & cur' & from' & Hrun & Hpi & Hlo & Hfill).
      { cbn [cur1 partIndex]. lia. }
      exists (cs1 ++ cs), cur', from'. split; [|split; [|split]].
      * intros w. cbn [foldGen]. unfold bind. rewrite Hrun1. cbn [completion world chunks].
        rewrite Hrun. reflexivity.
      * rewrite Hpi. cbn [cur1 partIndex]. lia.
      * exact Hlo.
      * intros holes pieces. rewrite concat_app, string_app_assoc, Hfill, Hcs1.
        rewrite string_app_assoc, (take_drop_step _ _ _ v Hv).
        cbn [map app filled cur1 partIndex]. rewrite Nat.add_1_r. reflexivity.
Qed.

Lemma renderTopLevelNode_childOnly (cur : Cursor) (node : Node) (cs : list string)
    (cur' : Cursor) :
  (forall w, foldGen (handleNode ext (renderValue ext (S fuel)) result t)
                     (depthFirst node) cur w = mkRun cs w (Done cur')) ->
  forall w, renderTopLevelNode ext (renderValue ext (S fuel)) result t cur node w
            = mkRun cs w (Done cur').
Proof.
  intros Hrun w. rewrite renderTopLevelNode_frames. unfold bind. rewrite Hrun.
  cbn [completion world chunks].
  destruct node as [kids|tagName attrs off kids|data so eo|text]; cbn;
    rewrite ?app_nil_r; try reflexivity.
  change (setInstances _ (pushFrame tagName w)) with (popFrame (pushFrame tagName w)).
  rewrite popFrame_pushFrame. reflexivity.
Qed.

Lemma renderTopLevelNodes_filled (nodes : list Node) :
  forall (cur : Cursor) (from : nat),
    lastOffset cur = Some from ->
    forallb (childOnly ext) (flat_map depthFirst nodes) = true ->
    forallb (fun '(so, eo) => so <=? eo)%nat (holesOf ext (flat_map depthFirst nodes)) = true ->
    partIndex cur + length (holesOf ext (flat_map depthFirst nodes))
      <= length (values result) ->
    exists cs cur' from',
      (forall w, foldGen (renderTopLevelNode ext (renderValue ext (S fuel)) result t)
                         nodes cur w
                 = mkRun cs w (Done cur')) /\
      partIndex cur' = partIndex cur + length (holesOf ext (flat_map depthFirst nodes)) /\
      lastOffset cur' = Some from' /\
      forall holes pieces,
        String.concat "" cs +:+ filled (html t) from' holes pieces
        = filled (html t) from (holesOf ext (flat_map depthFirst nodes) ++ holes)
            (map (wrapped ext)
                 (take (length (holesOf ext (flat_map depthFirst nodes)))
                       (drop (partIndex cur) (values result))) ++ pieces).
Proof.
  induction nodes as [|node nodes IH]; intros cur from Hfrom Hchild Hordered Hcount.
  - exists [], cur, from. split; [reflexivity|]. split; [cbn; lia|].
    split; [exact Hfrom|]. intros holes pieces. reflexivity.
  - cbn [flat_map] in *. rewrite holesOf_app in *.
    rewrite forallb_app in Hchild, Hordered.
    apply andb_prop in Hchild. destruct Hchild as [Hnode Hrest].
    apply andb_prop in Hordered. destruct Hordered as [Hhere Hlater].
    rewrite length_app in *.
    destruct (handleNodes_filled (depthFirst node) cur from Hfrom Hnode Hhere)
      as (cs1 & cur1 & from1 & Hrun1 & Hpi1 & Hlo1 & Hfill1); [lia|].
    destruct (IH cur1 from1 Hlo1 Hrest Hlater)
      as (cs & cur' & from' & Hrun & Hpi & Hlo & Hfill); [lia|].
    exists (cs1 ++ cs), cur', from'. split; [|split; [|split]].
    + intros w. cbn [foldGen]. unfold bind.
      rewrite (renderTopLevelNode_childOnly cur node cs1 cur1 Hrun1).
      cbn [completion world chunks]. rewrite Hrun. reflexivity.
    + lia.
    + exact Hlo.
    + intros holes pieces.
      rewrite concat_app, string_app_assoc, Hfill, Hfill1, Hpi1.
      rewrite take_drop_add, map_app, <- !app_assoc. reflexivity.
Qed.

End ChildBindings.

(** A template whose only bindings are in child position, with as many
    values as markers, none of them rendering a nested value, is rendered to
    completion, without effect on the frame stack, the element objects or the
    console; the text of its chunks is the template's HTML with the source
    range of each marker comment replaced by the wrapped text of its value,
    in order. *)
Theorem child_bindings_fill_the_markers (ext : Externals) (fuel : nat)
    (result : TemplateResult) (w : World) (t : ParsedTemplate) (nodes : list Node) :
  completion (getTemplate ext result w) = Done t ->
  getChildNodes (ast t) = Some nodes ->
  forallb (childOnly ext) (flat_map depthFirst nodes) = true ->
  forallb (fun '(so, eo) => so <=? eo)%nat (holesOf ext (flat_map depthFirst nodes)) = true ->
  length (values result) = length (holesOf ext (flat_map depthFirst nodes)) ->
  forallb leafValue (values result) = true ->
  completion (renderTemplateResult ext (S fuel) result w) = Done (length (values result)) /\
  world (renderTemplateResult ext (S fuel) result w) = world (getTemplate ext result w) /\
  String.concat "" (chunks (renderTemplateResult ext (S fuel) result w))
  = filled (html t) 0 (holesOf ext (flat_map depthFirst nodes))
           (map (wrapped ext) (values result)).
Proof.
  intros Htemplate Hnodes Hchild Hordered Hcount Hleaves.
  destruct (getTemplate_run ext result w) as (t' & Hget & _).
  assert (t' = t) as -> by (rewrite Hget in Htemplate; injection Htemplate as ->; reflexivity).
  destruct (renderTopLevelNodes_filled ext fuel result t Hleaves nodes
              (initialCursor) 0 eq_refl Hchild Hordered)
    as (cs & cur' & from' & Hrun & Hpi & Hlo & Hfill).
  { cbn [initialCursor partIndex]. lia. }
  cbn [initialCursor partIndex] in Hpi, Hfill. cbn [Nat.add] in Hpi.
  unfold renderTemplateResult, renderTemplateResultWith.
  rewrite (bind_silent _ _ w (world (getTemplate ext result w)) t) by exact Hget.
  rewrite Hnodes. unfold renderChildNodes, bind. rewrite Hrun.
  cbn [completion world chunks]. rewrite (finish_run result t cur' from' _ Hlo).
  cbn [completion world chunks].
  rewrite bool_decide_eq_true_2 by lia. rewrite Hpi, <- Hcount.
  split; [reflexivity|]. split; [reflexivity|].
  rewrite concat_app.
  change (String.concat "" [JS.substring (html t) (Some from') None])
    with (filled (html t) from' [] []).
  rewrite Hfill, !app_nil_r, <- Hcount, drop_0, firstn_all. reflexivity.
Qed.

Lemma child_bindings_fill_the_markers_witness :
  completion (renderTemplateResult Example.ext 1 (Example.hello [VStr "World"])
                Example.emptyWorld) = Done 1 /\
  world (renderTemplateResult Example.ext 1 (Example.hello [VStr "World"])
           Example.emptyWorld)
    = world (getTemplate Example.ext (Example.hello [VStr "World"]) Example.emptyWorld) /\
  String.concat "" (chunks (renderTemplateResult Example.ext 1 (Example.hello [VStr "World"])
                              Example.emptyWorld))
  = filled Example.helloHtml 0 (holesOf Example.ext (flat_map depthFirst
        (default [] (getChildNodes Example.helloAst))))
      [wrapped Example.ext (VStr "World")].
Proof.
  apply (child_bindings_fill_the_markers Example.ext 0 (Example.hello [VStr "World"])
           Example.emptyWorld
           (parseTemplate Example.ext (Example.hello [VStr "World"]))
           (default [] (getChildNodes Example.helloAst)));
    vm_compute; reflexivity.
Defined.

(** The filled text of the greeting of the specification. *)
Example hello_filled :
  filled Example.helloHtml 0
    (holesOf Example.ext (flat_map depthFirst (default [] (getChildNodes Example.helloAst))))
    [wrapped Example.ext (VStr "World")]
  = "<p>Hello, <!--lit-part-->World<!--/lit-part-->!</p>".
Proof. vm_compute. reflexivity. Qed.
